(** * nginx-log-analyzer: the parse, aggregate and rank pipeline of
    [log_analyzer.py], embedded in Rocq.

    Conventions of the embedding.
    - A Python [str] is a [string]; its characters are code points below 256.
    - A Python [int] is a [Z].  A Python [float] is an exact rational [Q]:
      the binary rounding error of float arithmetic is outside the model, and
      so is the difference between the summation algorithms of CPython
      versions.  Integers passed where floats are expected (as the tests of
      the repository do) are the same rationals.
    - A raised exception is the [Raise] outcome of the [result] monad.
    - A [dict] whose iteration order matters is an association list in
      insertion order.
    - A generator is the list of the values it yields together with the
      outcome it ends with. *)

From Stdlib Require Import ZArith QArith Qround Qabs Lia Lqa.
From Stdlib Require Import String Ascii DecimalString DecimalZ Bool Arith List.
From Stdlib Require Import Sorted Permutation.
Import ListNotations.

Local Open Scope string_scope.
Local Open Scope list_scope.
Local Open Scope nat_scope.

(** ** Exceptions and results *)

Module Py.

(** The exceptions the pipeline can raise. *)
Inductive exn : Type :=
| ValueError (msg : string)
| RuntimeError (msg : string)
| ZeroDivisionError
| IndexError
| KeyError (key : string)
| TypeError.

Inductive result (A : Type) : Type :=
| Ok (a : A)
| Raise (e : exn).

Arguments Ok {A} a.
Arguments Raise {A} e.

Definition bind {A B : Type} (r : result A) (f : A -> result B) : result B :=
  match r with
  | Ok a => f a
  | Raise e => Raise e
  end.

(** [d[k]] on a dict kept as an association list. *)
Fixpoint lookup {V : Type} (k : string) (d : list (string * V)) : option V :=
  match d with
  | [] => None
  | (k', v) :: d' => if String.eqb k' k then Some v else lookup k d'
  end.

Definition getitem {V : Type} (d : list (string * V)) (k : string) : result V :=
  match lookup k d with
  | Some v => Ok v
  | None => Raise (KeyError k)
  end.

(** [d[k] = v]: an existing key keeps its place, a new one goes last. *)
Fixpoint setitem {V : Type} (k : string) (v : V) (d : list (string * V))
  : list (string * V) :=
  match d with
  | [] => [(k, v)]
  | (k', v') :: d' =>
      if String.eqb k' k then (k', v) :: d' else (k', v') :: setitem k v d'
  end.

(** [d.update(other)]. *)
Definition update {V : Type} (d other : list (string * V)) : list (string * V) :=
  fold_left (fun acc kv => setitem (fst kv) (snd kv) acc) other d.

(** [l[i]] for a Python index: negative indices count from the end. *)
Definition index {A : Type} (l : list A) (i : Z) : result A :=
  let n := Z.of_nat (length l) in
  let j := (if i <? 0 then n + i else i)%Z in
  if ((0 <=? j) && (j <? n))%Z then
    match nth_error l (Z.to_nat j) with
    | Some x => Ok x
    | None => Raise IndexError
    end
  else Raise IndexError.

(** [l[:n]] for an integer [n]: a negative [n] drops the last [-n] items. *)
Definition slice_to {A : Type} (l : list A) (n : Z) : list A :=
  if (0 <=? n)%Z then firstn (Z.to_nat n) l
  else firstn (length l - Z.to_nat (- n)) l.

(** [len(l)]. *)
Definition len {A : Type} (l : list A) : Z := Z.of_nat (length l).

(** [sum(l)]: a left fold from 0. *)
Definition sum (l : list Q) : Q := fold_left Qplus l 0%Q.

(** [max(l)]: the first largest item; ValueError on an empty list. *)
Definition max (l : list Q) : result Q :=
  match l with
  | [] => Raise (ValueError "max() arg is an empty sequence")
  | x :: l' => Ok (fold_left (fun m y => if Qle_bool y m then m else y) l' x)
  end.

(** [a / b] on numbers: true division. *)
Definition truediv (a b : Q) : result Q :=
  if Qeq_bool b 0 then Raise ZeroDivisionError else Ok (a / b)%Q.

(** Ascending insertion of [x] before the first item that is not smaller:
    the step of a stable sort. *)
Fixpoint insert_asc (x : Q) (l : list Q) : list Q :=
  match l with
  | [] => [x]
  | y :: l' => if Qle_bool x y then x :: y :: l' else y :: insert_asc x l'
  end.

(** [sorted(l)] on numbers.  Python's sort is stable, and every stable sort
    returns the same list; it is modelled by insertion. *)
Definition sorted (l : list Q) : list Q := fold_right insert_asc [] l.

(** Rounding of a rational to the nearest integer, ties to the even one. *)
Definition round_half_even (q : Q) : Z :=
  let f := Qfloor q in
  match (q - inject_Z f ?= 1 # 2)%Q with
  | Lt => f
  | Gt => (f + 1)%Z
  | Eq => if Z.even f then f else (f + 1)%Z
  end.

(** [round(x, ndigits)] for [ndigits >= 0]: the nearest multiple of
    [10 ** -ndigits], ties to even, in lowest terms. *)
Definition round (x : Q) (ndigits : nat) : Q :=
  let scale := Z.to_pos (10 ^ Z.of_nat ndigits) in
  Qred (round_half_even (x * inject_Z (Zpos scale))%Q # scale).

End Py.

Import Py.

Declare Scope py_scope.
Notation "x <- c1 ;; c2" := (bind c1 (fun x => c2))
  (at level 61, c1 at next level, right associativity) : py_scope.
Local Open Scope py_scope.

(** ** The regular expressions of [re] that the grammar uses

    [re.compile(p).match(line)] is a backtracking search anchored at the
    start of the line.  The grammar of the analyzer only uses single
    characters, character classes, greedy and lazy repetitions of a class,
    concatenation and named groups, so a pattern is a list of such items and
    a group is a pair of marks around its body. *)

Module Re.

(** Character classes. *)
Inductive cls : Type :=
| Digit                 (* \d *)
| Space                 (* \s *)
| NotSpace              (* \S *)
| Dot                   (* . *)
| Chr (c : ascii)       (* a literal character *)
| Union (a b : cls).    (* [ab] *)

(** [\d] on the code points below 256: the ten ASCII digits. *)
Definition is_digit (a : ascii) : bool :=
  let n := nat_of_ascii a in ((48 <=? n) && (n <=? 57))%nat.

(** [\s] on the code points below 256: tab to carriage return, the four
    separators 28 to 31, the space, NEL and the no-break space. *)
Definition is_space (a : ascii) : bool :=
  let n := nat_of_ascii a in
  (((9 <=? n) && (n <=? 13)) || ((28 <=? n) && (n <=? 32))
   || (n =? 133) || (n =? 160))%nat.

Fixpoint cls_match (c : cls) (a : ascii) : bool :=
  match c with
  | Digit => is_digit a
  | Space => is_space a
  | NotSpace => negb (is_space a)
  | Dot => negb (Ascii.eqb a "010")
  | Chr c' => Ascii.eqb a c'
  | Union c1 c2 => cls_match c1 a || cls_match c2 a
  end.

Inductive item : Type :=
| One (c : cls)                              (* one character of the class *)
| Rep (greedy : bool) (min : nat) (c : cls)  (* c*  c+  c*? *)
| Open (name : string)                       (* (?P<name> *)
| Close (name : string).                     (* ) *)

Definition regex : Type := list item.

Definition star (c : cls) : item := Rep true 0 c.
Definition plus (c : cls) : item := Rep true 1 c.
Definition lazy_star (c : cls) : item := Rep false 0 c.
Definition lit (c : ascii) : item := One (Chr c).
Definition group (name : string) (body : regex) : regex :=
  Open name :: body ++ [Close name].

(** The marks of a match in progress: where each group opened, and the span
    (start, end) of each group that closed, the last closed first. *)
Record marks : Type := {
  starts : list (string * nat);
  spans : list (string * (nat * nat))
}.

Definition no_marks : marks := {| starts := []; spans := [] |}.

Definition mark_open (name : string) (pos : nat) (m : marks) : marks :=
  {| starts := (name, pos) :: starts m; spans := spans m |}.

(** Where the group [name] opened last (a group that never opened, which
    the syntax of patterns excludes, gets the empty span). *)
Definition start_of (name : string) (pos : nat) (m : marks) : nat :=
  match lookup name (starts m) with
  | Some st => st
  | None => pos
  end.

Definition mark_close (name : string) (pos : nat) (m : marks) : marks :=
  {| starts := starts m; spans := (name, (start_of name pos m, pos)) :: spans m |}.

(** What is left to do after an item: the rest of the text, the position
    reached and the marks, to the end of the match and its marks. *)
Definition cont : Type := list ascii -> nat -> marks -> option (nat * marks).

(** A greedy repetition takes as many characters as it can, and gives them
    back one at a time while the rest of the pattern fails. *)
Fixpoint greedy (c : cls) (min : nat) (k : cont) (s : list ascii) (pos : nat)
  (m : marks) {struct s} : option (nat * marks) :=
  let stop := match min with O => k s pos m | S _ => None end in
  match s with
  | a :: s' =>
      if cls_match c a then
        match greedy c (Nat.pred min) k s' (S pos) m with
        | Some r => Some r
        | None => stop
        end
      else stop
  | [] => stop
  end.

(** A lazy repetition takes as few characters as it can, and one more each
    time the rest of the pattern fails. *)
Fixpoint lazy (c : cls) (min : nat) (k : cont) (s : list ascii) (pos : nat)
  (m : marks) {struct s} : option (nat * marks) :=
  let more :=
    match s with
    | a :: s' =>
        if cls_match c a then lazy c (Nat.pred min) k s' (S pos) m else None
    | [] => None
    end in
  match min with
  | O => match k s pos m with Some r => Some r | None => more end
  | S _ => more
  end.

(** The backtracking matcher, in continuation-passing style. *)
Fixpoint run (r : regex) (k : cont) {struct r} : cont :=
  match r with
  | [] => k
  | One c :: r' =>
      fun s pos m =>
        match s with
        | a :: s' => if cls_match c a then run r' k s' (S pos) m else None
        | [] => None
        end
  | Rep true min c :: r' => greedy c min (run r' k)
  | Rep false min c :: r' => lazy c min (run r' k)
  | Open name :: r' => fun s pos m => run r' k s pos (mark_open name pos m)
  | Close name :: r' => fun s pos m => run r' k s pos (mark_close name pos m)
  end.

(** A match object: the string searched, where the match ends, the spans. *)
Record match_obj : Type := {
  m_string : string;
  m_end : nat;
  m_spans : list (string * (nat * nat))
}.

(** The end of the pattern: the match is found, whatever text is left. *)
Definition accept : cont := fun _ pos m => Some (pos, m).

(** [pattern.match(s)]. *)
Definition rmatch (r : regex) (s : string) : option match_obj :=
  match run r accept (list_ascii_of_string s) 0 no_marks with
  | Some (e, m) => Some {| m_string := s; m_end := e; m_spans := rev (spans m) |}
  | None => None
  end.

(** [m.groupdict()]: every named group with the text of its span. *)
Definition groupdict (mo : match_obj) : list (string * string) :=
  map (fun ns => (fst ns, substring (fst (snd ns)) (snd (snd ns) - fst (snd ns))
                             (m_string mo)))
      (m_spans mo).

(** The words a pattern matches exactly, with the marks they leave: the
    declarative reading of a pattern, against which [run] is justified. *)
Fixpoint parse (r : regex) (w : list ascii) (pos : nat) (m m' : marks) : Prop :=
  match r with
  | [] => w = [] /\ m' = m
  | One c :: r' =>
      exists a w', w = a :: w' /\ cls_match c a = true /\ parse r' w' (S pos) m m'
  | Rep _ min c :: r' =>
      exists u w', w = u ++ w' /\ forallb (cls_match c) u = true /\
                   min <= length u /\ parse r' w' (pos + length u) m m'
  | Open name :: r' => parse r' w pos (mark_open name pos m) m'
  | Close name :: r' => parse r' w pos (mark_close name pos m) m'
  end.

End Re.

Import Re.

(** ** The program *)

(** The double quote, written by its code. *)
Definition dq : ascii := "034"%char.

(** [log_pattern] of [parse_lines], item by item. *)
Definition log_pattern : regex :=
     group "remote_addr" [plus (Union Digit (Chr "."))] ++ [One Space]
  ++ group "remote_user" [star NotSpace] ++ [plus Space]
  ++ group "http_x_real_ip" [star NotSpace] ++ [One Space]
  ++ [lit "["] ++ group "time_local" [lazy_star Dot] ++ [lit "]"; One Space]
  ++ [lit dq]
  ++ group "request_method" [lazy_star Dot] ++ [One Space]
  ++ group "request_url" [lazy_star Dot] ++ [One Space]
  ++ group "request_protocol" [lazy_star Dot]
  ++ [lit dq; One Space]
  ++ group "status" [plus Digit] ++ [One Space]
  ++ group "body_bytes_sent" [star NotSpace] ++ [One Space]
  ++ [lit dq] ++ group "http_referer" [lazy_star Dot] ++ [lit dq; One Space]
  ++ [lit dq] ++ group "http_user_agent" [lazy_star Dot] ++ [lit dq; One Space]
  ++ [lit dq] ++ group "http_x_forwarded_for" [lazy_star Dot] ++ [lit dq; One Space]
  ++ [lit dq] ++ group "http_X_REQUEST_ID" [lazy_star Dot] ++ [lit dq; One Space]
  ++ [lit dq] ++ group "http_X_RB_USER" [lazy_star Dot] ++ [lit dq; One Space]
  ++ group "request_time" [plus Digit; lit "."; plus Digit] ++ [star Space].

(** [log_pattern.match(line)] followed by [groupdict()] on a match. *)
Definition match_line (line : string) : option (list (string * string)) :=
  option_map groupdict (rmatch log_pattern line).

(** A generator, as what a consumer sees of it: the values it yields, in
    order, and how it ends (normally, or by an exception). *)
Inductive gen (A : Type) : Type :=
| Yield (a : A) (rest : gen A)
| StopIteration
| Throw (e : exn).

Arguments Yield {A} a rest.
Arguments StopIteration {A}.
Arguments Throw {A} e.

(** [calc_median]. *)
Definition calc_median (numbers : list Q) : result Q :=
  let sorted_nums := sorted numbers in
  let nums_count := len sorted_nums in
  if (nums_count mod 2 =? 1)%Z then
    index sorted_nums (nums_count / 2)%Z
  else
    let i := (nums_count / 2)%Z in
    a <- index sorted_nums (i - 1)%Z ;;
    b <- index sorted_nums i ;;
    truediv (a + b)%Q 2%Q.

(** [is_too_many_missed_lines]; [limit_perc] defaults to 30. *)
Definition limit_perc_default : Z := 30.

Definition is_too_many_missed_lines (missed total limit_perc : Z) : result bool :=
  ratio <- truediv (inject_Z missed) (inject_Z total) ;;
  let missed_perc := (ratio * 100)%Q in
  Ok (Qle_bool (inject_Z limit_perc) missed_perc).

(** A parsed record: the [groupdict] of a match. *)
Definition record : Type := list (string * string).

Definition empty_log : exn := ValueError "Log file is empty.".
Definition too_many_missed : exn := RuntimeError "Too many missed lines. Aborted.".

(** [parse_lines] after its loop: the two checks on the counters (between
    them the counters are reported to the logger, which changes nothing
    here). *)
Definition parse_lines_end (missed_count total_lines : Z) : gen record :=
  if (total_lines =? 0)%Z then Throw empty_log
  else
    match is_too_many_missed_lines missed_count total_lines limit_perc_default with
    | Raise e => Throw e
    | Ok true => Throw too_many_missed
    | Ok false => StopIteration
    end.

(** [parse_lines]: the loop over the lines with its two counters, then the
    checks. *)
Fixpoint parse_lines_from (lines : list string) (missed_count total_lines : Z)
  : gen record :=
  match lines with
  | line :: rest =>
      let total_lines := (total_lines + 1)%Z in
      match match_line line with
      | None => parse_lines_from rest (missed_count + 1)%Z total_lines
      | Some groups => Yield groups (parse_lines_from rest missed_count total_lines)
      end
  | [] => parse_lines_end missed_count total_lines
  end.

Definition parse_lines (lines : list string) : gen record :=
  parse_lines_from lines 0 0.

(** [float(s)] on the decimal numerals [digits] and [digits.digits].
    Python's [float] also reads signs, exponents, underscores, surrounding
    blanks, [inf] and [nan]; the grammar captures none of these, and the
    model raises ValueError on them. *)
Definition digit_value (a : ascii) : Z := Z.of_nat (nat_of_ascii a - 48).

Fixpoint digits_value (acc : Z) (ds : list ascii) : Z :=
  match ds with
  | [] => acc
  | d :: ds' => digits_value (10 * acc + digit_value d)%Z ds'
  end.

Fixpoint split_at_dot (s : list ascii) : list ascii * option (list ascii) :=
  match s with
  | [] => ([], None)
  | a :: s' =>
      if Ascii.eqb a "." then ([], Some s')
      else let (i, f) := split_at_dot s' in (a :: i, f)
  end.

Definition all_digits (ds : list ascii) : bool :=
  negb (Nat.eqb (length ds) 0) && forallb is_digit ds.

Definition float (s : string) : result Q :=
  let bad := Raise (ValueError "could not convert string to float") in
  match split_at_dot (list_ascii_of_string s) with
  | (i, None) => if all_digits i then Ok (inject_Z (digits_value 0 i)) else bad
  | (i, Some f) =>
      if all_digits i && all_digits f then
        Ok (Qred (digits_value 0 (i ++ f) # Z.to_pos (10 ^ Z.of_nat (length f))))
      else bad
  end.

(** The request times of each URL, in the order the URLs were first seen. *)
Definition times_map : Type := list (string * list Q).

(** [url_times[url].append(x)] on a [defaultdict(list)]. *)
Fixpoint append_time (url : string) (x : Q) (url_times : times_map) : times_map :=
  match url_times with
  | [] => [(url, [x])]
  | (u, times) :: rest =>
      if String.eqb u url then (u, times ++ [x]) :: rest
      else (u, times) :: append_time url x rest
  end.

(** [collect_times_for_urls]. *)
Fixpoint collect_times_from (parsed_log : gen record) (url_times : times_map)
  : result times_map :=
  match parsed_log with
  | Yield request_line rest =>
      url <- getitem request_line "request_url" ;;
      request_time <- getitem request_line "request_time" ;;
      x <- float request_time ;;
      collect_times_from rest (append_time url x url_times)
  | StopIteration => Ok url_times
  | Throw e => Raise e
  end.

Definition collect_times_for_urls (parsed_log : gen record) : result times_map :=
  collect_times_from parsed_log [].

(** One row of the report. *)
Record UrlStats : Type := {
  url : string;
  count : Z;
  count_perc : Q;
  time_sum : Q;
  time_perc : Q;
  time_avg : Q;
  time_max : Q;
  time_med : Q
}.

(** The first loop of [analyze_requests]. *)
Definition totals (tm : times_map) : Z * Q :=
  fold_left (fun acc item =>
               ((fst acc + len (snd item))%Z, (snd acc + sum (snd item))%Q))
            tm (0%Z, 0%Q).

(** The body of the second loop: the row of one URL. *)
Definition analyze_url (total_count : Z) (total_time : Q)
  (url : string) (times : list Q) : result UrlStats :=
  let requests_len := len times in
  let sum_times := sum times in
  max_times <- max times ;;
  let ndigits := 3 in
  cp <- truediv (inject_Z (100 * requests_len)) (inject_Z total_count) ;;
  tp <- truediv (100 * sum_times)%Q total_time ;;
  ta <- truediv sum_times (inject_Z requests_len) ;;
  md <- calc_median times ;;
  Ok {| url := url;
        count := len times;
        count_perc := round cp ndigits;
        time_sum := round sum_times ndigits;
        time_perc := round tp ndigits;
        time_avg := round ta ndigits;
        time_max := round max_times ndigits;
        time_med := round md ndigits |}.

Fixpoint analyze_items (total_count : Z) (total_time : Q) (items : times_map)
  : result (list UrlStats) :=
  match items with
  | [] => Ok []
  | (url, times) :: rest =>
      row <- analyze_url total_count total_time url times ;;
      rows <- analyze_items total_count total_time rest ;;
      Ok (row :: rows)
  end.

(** [analyze_requests]. *)
Definition analyze_requests (tm : times_map) : result (list UrlStats) :=
  let (total_count, total_time) := totals tm in
  analyze_items total_count total_time tm.

(** Insertion of a row before the first row whose [time_sum] is not
    larger: the step of a stable descending sort. *)
Fixpoint insert_by_time_sum (r : UrlStats) (l : list UrlStats) : list UrlStats :=
  match l with
  | [] => [r]
  | r' :: l' =>
      if Qle_bool (time_sum r') (time_sum r) then r :: r' :: l'
      else r' :: insert_by_time_sum r l'
  end.

(** [sort_requests_by_time_sum]: [list.sort] by the key [time_sum] with
    [reverse=True] is a stable descending sort. *)
Definition sort_requests_by_time_sum (analyzed_requests : list UrlStats)
  : list UrlStats :=
  fold_right insert_by_time_sum [] analyzed_requests.

(** The values of a configuration read from JSON (arrays and objects are
    left out; as an index they raise TypeError like a string). *)
Inductive json : Type :=
| JNull
| JBool (b : bool)
| JInt (n : Z)
| JFloat (x : Q)
| JStr (s : string).

Definition config : Type := list (string * json).

Definition DEFAULT_CONFIG : config :=
  [ ("REPORT_SIZE", JInt 1000);
    ("REPORT_DIR", JStr "./reports");
    ("LOG_DIR", JStr "./var/log");
    ("SCRIPT_LOG", JStr "./var/log/script_log") ].

(** [set_config], from the custom configuration once read ([None] when
    there is no custom file). *)
Definition set_config (custom_config : option config) : config :=
  update DEFAULT_CONFIG (match custom_config with Some c => c | None => [] end).

(** [l[:v]] for a value of the configuration. *)
Definition slice_to_value {A : Type} (l : list A) (v : json) : result (list A) :=
  match v with
  | JNull => Ok l
  | JBool b => Ok (slice_to l (if b then 1 else 0)%Z)
  | JInt n => Ok (slice_to l n)
  | JFloat _ | JStr _ => Raise TypeError
  end.

(** [main] from the lines of the latest log to the rows handed to the
    report writer (the steps around them are file and logger I/O). *)
Definition main (cfg : config) (log_lines : list string) : result (list UrlStats) :=
  let parsed_lines := parse_lines log_lines in
  times_map <- collect_times_for_urls parsed_lines ;;
  analyzed_requests <- analyze_requests times_map ;;
  let sorted_requests := sort_requests_by_time_sum analyzed_requests in
  report_size <- getitem cfg "REPORT_SIZE" ;;
  slice_to_value sorted_requests report_size.

(** ** Sample data *)

Definition quoted (s : string) : string := String dq (s ++ String dq "").

(** The head of an access-log line, up to the quoted request. *)
Definition line_head : string :=
  "1.199.168.112 2a828197ae235b0b3cb - [29/Jun/2017:03:50:44 +0300] ".

(** The fields between the request and the request time. *)
Definition line_middle : string :=
  " 200 1130 " ++ quoted "-" ++ " " ++ quoted "Lynx/2.8.8dev.9" ++ " "
  ++ quoted "-" ++ " " ++ quoted "1498697444-2760328665-4709-9929070" ++ " "
  ++ quoted "-" ++ " ".

(** A log line for a request and a request-time field. *)
Definition log_line (request time_field : string) : string :=
  line_head ++ quoted request ++ line_middle ++ time_field.

(** The line of the specification's example. *)
Definition spec_line : string :=
  log_line "GET /api/1/banners/?campaign=6607623 HTTP/1.1" "0.767".

(** The lines of [test_lines_parsing]. *)
Definition user_agent : string :=
  "Lynx/2.8.8dev.9 libwww-FM/2.14 SSL-MM/1.4.1 GNUTLS/2.10.5".

Definition test_log_lines : list string :=
  [ ("1.199.168.112 2a828197ae235b0b3cb  - [29/Jun/2017:03:50:44 +0300] "
     ++ quoted "GET /api/1/banners/?campaign=6607623 HTTP/1.1" ++ " 200 1130 "
     ++ quoted "-" ++ " " ++ quoted user_agent ++ " " ++ quoted "-" ++ " "
     ++ quoted "1498697444-2760328665-4709-9929070" ++ " " ++ quoted "-"
     ++ " 0.767")%string;
    ("1.196.116.32 -  - [29/Jun/2017:03:50:45 +0300] "
     ++ quoted "GET /api/v2/group/482920 HTTP/1.1" ++ " 200 836 "
     ++ quoted "-" ++ " " ++ quoted user_agent ++ " " ++ quoted "-" ++ " "
     ++ quoted "1498697445-2190034393-4709-9929080" ++ " " ++ quoted "dc7161be3"
     ++ " 0.058")%string;
    ("1.194.135.240 -  - [29/Jun/2017:03:50:45 +0300] "
     ++ quoted ("GET /api/v2/group/6190230/statistic/sites/?date_type=day"
                ++ "&date_from=2017-06-29&date_to=2017-06-29 HTTP/1.1")
     ++ " 200 22 "
     ++ quoted "-" ++ " " ++ quoted "python-requests/2.13.0" ++ " "
     ++ quoted "-" ++ " " ++ quoted "1498697445-3979856266-4709-9929081" ++ " "
     ++ quoted "8a7741a54297568b" ++ " 0.065")%string ].

(** The record [test_lines_parsing] expects among the parsed ones. *)
Definition test_expected_record : record :=
  [ ("remote_addr", "1.199.168.112");
    ("remote_user", "2a828197ae235b0b3cb");
    ("http_x_real_ip", "-");
    ("time_local", "29/Jun/2017:03:50:44 +0300");
    ("request_method", "GET");
    ("request_url", "/api/1/banners/?campaign=6607623");
    ("request_protocol", "HTTP/1.1");
    ("status", "200");
    ("body_bytes_sent", "1130");
    ("http_referer", "-");
    ("http_user_agent", user_agent);
    ("http_x_forwarded_for", "-");
    ("http_X_REQUEST_ID", "1498697444-2760328665-4709-9929070");
    ("http_X_RB_USER", "-");
    ("request_time", "0.767") ].

(** ** Notions used to state the properties *)

(** The values a generator yields, and how it ends. *)
Fixpoint yields {A : Type} (g : gen A) : list A :=
  match g with
  | Yield a rest => a :: yields rest
  | StopIteration | Throw _ => []
  end.

Fixpoint ending {A : Type} (g : gen A) : result unit :=
  match g with
  | Yield _ rest => ending rest
  | StopIteration => Ok tt
  | Throw e => Raise e
  end.

(** Whether the parser matches a line. *)
Definition matched (line : string) : bool :=
  match match_line line with
  | Some _ => true
  | None => false
  end.

(** What the aggregator needs of a record. *)
Definition readable (groups : record) : Prop :=
  exists u t x,
    lookup "request_url" groups = Some u /\
    lookup "request_time" groups = Some t /\
    float t = Ok x.

(** The records of the matched lines, in order. *)
Fixpoint matched_records (lines : list string) : list record :=
  match lines with
  | [] => []
  | line :: rest =>
      match match_line line with
      | Some groups => groups :: matched_records rest
      | None => matched_records rest
      end
  end.

(** The number of unmatched lines, and their percentage of all lines. *)
Definition unmatched_count (lines : list string) : Z :=
  len (filter (fun line => negb (matched line)) lines).

Definition unmatched_perc (lines : list string) : Q :=
  (inject_Z (unmatched_count lines) / inject_Z (len lines) * 100)%Q.

(** The median as the specification words it, on a list already sorted. *)
Definition middle_of_sorted (s : list Q) : Q :=
  let n := length s in
  if Nat.odd n then nth (n / 2) s 0%Q
  else ((nth (n / 2 - 1) s 0%Q + nth (n / 2) s 0%Q) / 2)%Q.

(** [m] is the statistical median of [l]: the middle of every sorted
    arrangement of [l]. *)
Definition is_median (l : list Q) (m : Q) : Prop :=
  forall s, Permutation s l -> StronglySorted Qle s -> (m == middle_of_sorted s)%Q.

(** Counting the items below a value: used to compare sorted arrangements. *)
Definition count_lt (v : Q) (l : list Q) : nat :=
  length (filter (fun x => negb (Qle_bool v x)) l).

Definition count_le (v : Q) (l : list Q) : nat :=
  length (filter (fun x => Qle_bool x v) l).

(** Rows in descending order of [time_sum]. *)
Definition sorted_by_time_sum_desc (rows : list UrlStats) : Prop :=
  StronglySorted (fun a b => (time_sum b <= time_sum a)%Q) rows.

(** The rows of [rows] whose [time_sum] is [v], in their order. *)
Definition with_time_sum (v : Q) (rows : list UrlStats) : list UrlStats :=
  filter (fun r => Qeq_bool (time_sum r) v) rows.

(** The sum of a list of numbers, and of a field over rows. *)
Definition qsum (l : list Q) : Q := fold_right Qplus 0%Q l.

Definition sum_of (f : UrlStats -> Q) (rows : list UrlStats) : Q :=
  qsum (map f rows).

(** The total number of samples and the total time of a sample set. *)
Definition total_count (tm : times_map) : Z :=
  fold_right Z.add 0%Z (map (fun item => len (snd item)) tm).

Definition total_time (tm : times_map) : Q :=
  qsum (map (fun item => sum (snd item)) tm).

(** A sample set as the aggregator builds it: every URL has a sample, and
    no sample is negative. *)
Definition well_formed (tm : times_map) : Prop :=
  Forall (fun item => snd item <> [] /\ Forall (fun x => (0 <= x)%Q) (snd item)) tm.

(** The row that the statistics of one URL should be, field by field. *)
Definition row_for (tm : times_map) (item : string * list Q) (r : UrlStats)
  : Prop :=
  let times := snd item in
  url r = fst item /\
  count r = len times /\
  (exists hi, max times = Ok hi /\ time_max r = round hi 3) /\
  (exists md, calc_median times = Ok md /\ time_med r = round md 3) /\
  time_sum r = round (sum times) 3 /\
  time_avg r = round (sum times / inject_Z (len times)) 3 /\
  count_perc r = round (inject_Z (100 * len times) / inject_Z (total_count tm)) 3 /\
  time_perc r = round (100 * sum times / total_time tm) 3.

(** The numerals of the form [\d+\.\d+]. *)
Definition is_decimal (s : string) : bool :=
  match split_at_dot (list_ascii_of_string s) with
  | (i, Some f) => all_digits i && all_digits f
  | (_, None) => false
  end.

(** Whether a text begins with [\d+\.\d+]. *)
Fixpoint skip_digits (s : list ascii) : list ascii :=
  match s with
  | a :: s' => if is_digit a then skip_digits s' else s
  | [] => []
  end.

Definition starts_with_decimal (s : list ascii) : bool :=
  match s with
  | d :: s' =>
      is_digit d &&
      match skip_digits s' with
      | p :: f :: _ => Ascii.eqb p "." && is_digit f
      | _ => false
      end
  | [] => false
  end.

(** Whether a text begins with a double quote, a whitespace character and
    a numeral [\d+\.\d+]: what the grammar asks for before and at the
    request time. *)
Definition time_field_at (s : list ascii) : bool :=
  match s with
  | q :: sp :: t => Ascii.eqb q dq && is_space sp && starts_with_decimal t
  | _ => false
  end.

Fixpoint time_field_in (s : list ascii) : bool :=
  time_field_at s ||
  match s with
  | _ :: s' => time_field_in s'
  | [] => false
  end.

Definition has_time_field (line : string) : bool :=
  time_field_in (list_ascii_of_string line).

(** Whether a string has a line feed. *)
Definition has_newline (s : string) : bool :=
  existsb (fun a => Ascii.eqb a "010") (list_ascii_of_string s).

(** Patterns without groups. *)
Fixpoint marks_free (r : regex) : bool :=
  match r with
  | [] => true
  | (One _ | Rep _ _ _) :: r' => marks_free r'
  | (Open _ | Close _) :: _ => false
  end.

(** The names of the groups a pattern closes. *)
Fixpoint closes (r : regex) : list string :=
  match r with
  | [] => []
  | Close name :: r' => name :: closes r'
  | _ :: r' => closes r'
  end.

(** A row with a URL and a total time (one request, the only one of the
    log share apart). *)
Definition sample_row (u : string) (t : Q) : UrlStats :=
  {| url := u; count := 1; count_perc := 20; time_sum := t; time_perc := 0;
     time_avg := t; time_max := t; time_med := t |}.

(** Five rows, two of them with the largest total time. *)
Definition five_rows : list UrlStats :=
  [ sample_row "/a" 1; sample_row "/b" 3; sample_row "/c" 2;
    sample_row "/d" 3; sample_row "/e" (1 # 2) ]%Q.

(** Three URLs with four requests between them. *)
Definition three_urls : times_map :=
  [ ("/a", [1; 2]); ("/b", [1 # 2]); ("/c", [3]) ]%Q.

(** Thirty URLs with one request of one second each. *)
Definition url_number (i : nat) : string :=
  "/page/" ++ NilEmpty.string_of_uint (Nat.to_uint i).

Definition thirty_urls : times_map :=
  map (fun i => (url_number i, [1%Q])) (seq 0 30).

(** Ten lines, four of them unmatched. *)
Definition four_of_ten : list string :=
  repeat "not a log line" 4 ++ repeat spec_line 6.

(** ** Notions used to state further properties *)

(** The URL and the time the aggregator reads from a record. *)
Definition sample_of (r : record) : option (string * Q) :=
  match lookup "request_url" r, lookup "request_time" r with
  | Some u, Some t =>
      match float t with
      | Ok x => Some (u, x)
      | Raise _ => None
      end
  | _, _ => None
  end.

(** The samples of the records that have one, in order. *)
Fixpoint samples (rs : list record) : list (string * Q) :=
  match rs with
  | [] => []
  | r :: rs' =>
      match sample_of r with
      | Some p => p :: samples rs'
      | None => samples rs'
      end
  end.

(** The times of a URL among samples, in order. *)
Definition times_of (u : string) (ps : list (string * Q)) : list Q :=
  map snd (filter (fun p => String.eqb (fst p) u) ps).

(** The strings of a list without repetition, each at its first place. *)
Fixpoint first_seen (us : list string) : list string :=
  match us with
  | [] => []
  | u :: us' => u :: filter (fun v => negb (String.eqb v u)) (first_seen us')
  end.

(** Membership in a list of strings. *)
Definition mem (u : string) (l : list string) : bool :=
  existsb (String.eqb u) l.

(** The aggregation of samples into a map, one sample after the other. *)
Definition add_samples (ps : list (string * Q)) (acc : times_map) : times_map :=
  fold_left (fun m p => append_time (fst p) (snd p) m) ps acc.


(** Three records for two URLs. *)
Definition three_records : gen record :=
  Yield [("request_url", "/a"); ("request_time", "0.5")]
    (Yield [("request_url", "/b"); ("request_time", "2.0")]
       (Yield [("request_url", "/a"); ("request_time", "1.25")] StopIteration)).

(** The names of the groups of the grammar, in order. *)
Definition log_fields : list string :=
  [ "remote_addr"; "remote_user"; "http_x_real_ip"; "time_local";
    "request_method"; "request_url"; "request_protocol"; "status";
    "body_bytes_sent"; "http_referer"; "http_user_agent";
    "http_x_forwarded_for"; "http_X_REQUEST_ID"; "http_X_RB_USER";
    "request_time" ].

(** Strings whose characters all satisfy a test. *)
Definition only (p : ascii -> bool) (s : string) : bool :=
  forallb p (list_ascii_of_string s).

Definition digit_or_dot (a : ascii) : bool := is_digit a || Ascii.eqb a ".".

Definition not_space (a : ascii) : bool := negb (is_space a).

(** The message of [max] on an empty list. *)
Definition max_of_empty : exn := ValueError "max() arg is an empty sequence".




(** ** The latest log and the name of its report *)

(** A [datetime.date]: a day of the proleptic Gregorian calendar. *)
Module datetime.

Record date : Type := { year : Z; month : Z; day : Z }.

End datetime.

Import datetime.

(** A log file, as [find_latest_log] returns it.  [path] holds what the
    variable [last_path] holds, which starts as [None]. *)
Record LogFile : Type := { path : option string; date : datetime.date }.

(** [a > b] on dates: the order of the triples (year, month, day). *)
Definition date_gt (a b : datetime.date) : bool :=
  ((year b <? year a)
   || ((year a =? year b)
       && ((month b <? month a)
           || ((month a =? month b) && (day b <? day a)))))%Z.

(** [\w] on the code points below 256: the ASCII letters and digits, the
    underscore, and the letters and numbers of Latin-1. *)
Definition is_word (a : ascii) : bool :=
  let n := nat_of_ascii a in
  (((48 <=? n) && (n <=? 57)) || ((65 <=? n) && (n <=? 90)) || (n =? 95)
   || ((97 <=? n) && (n <=? 122))
   || (n =? 170) || (n =? 178) || (n =? 179) || (n =? 181) || (n =? 185)
   || (n =? 186) || ((188 <=? n) && (n <=? 190))
   || ((192 <=? n) && (n <=? 214)) || ((216 <=? n) && (n <=? 246))
   || (248 <=? n))%nat.

(** The literal of the pattern of [find_latest_log]. *)
Definition log_name : string := "nginx-access-ui.log-".

(** [l] without the prefix [p], when it has it. *)
Fixpoint strip_prefix (p l : list ascii) : option (list ascii) :=
  match p, l with
  | [], _ => Some l
  | a :: p', b :: l' => if Ascii.eqb a b then strip_prefix p' l' else None
  | _ :: _, [] => None
  end.

(** [(?<=\bnginx-access-ui\.log-)] at a place of a name, from the text
    before the place, last character first: the literal ends there, and
    it starts the name or follows a character that is not of a word. *)
Definition lookbehind (before_rev : list ascii) : bool :=
  match strip_prefix (rev (list_ascii_of_string log_name)) before_rev with
  | Some [] => true
  | Some (a :: _) => negb (is_word a)
  | None => false
  end.

(** [(?=\.gz|$)] from the text at a place: [.gz] follows, or the name ends
    there, or only its final line feed follows. *)
Definition lookahead (after : list ascii) : bool :=
  match after with
  | [] => true
  | ["010"%char] => true
  | "."%char :: "g"%char :: "z"%char :: _ => true
  | _ => false
  end.

(** The pattern [(?<=\bnginx-access-ui\.log-)\d{8}(?=\.gz|$)] at one place
    of a name. *)
Definition date_at (before_rev after : list ascii) : option string :=
  let digits := firstn 8 after in
  if lookbehind before_rev && (length digits =? 8) && forallb is_digit digits
     && lookahead (skipn 8 after)
  then Some (string_of_list_ascii digits)
  else None.

(** [re.findall(pattern, file)]: the matches from left to right, the search
    going on after each match ([skip] characters are left of the last
    match). *)
Fixpoint findall_from (skip : nat) (before_rev after : list ascii) : list string :=
  match after with
  | [] => []
  | a :: after' =>
      match skip with
      | S skip' => findall_from skip' (a :: before_rev) after'
      | O =>
          match date_at before_rev after with
          | Some d => d :: findall_from 7 (a :: before_rev) after'
          | None => findall_from 0 (a :: before_rev) after'
          end
      end
  end.

Definition findall (file : string) : list string :=
  findall_from 0 [] (list_ascii_of_string file).

(** The days of a month. *)
Definition is_leap (y : Z) : bool :=
  ((y mod 4 =? 0) && (negb (y mod 100 =? 0) || (y mod 400 =? 0)))%Z.

Definition days_in_month (y m : Z) : Z :=
  if (m =? 2)%Z then (if is_leap y then 29 else 28)%Z
  else if ((m =? 4) || (m =? 6) || (m =? 9) || (m =? 11))%Z then 30%Z
  else 31%Z.

(** [try_parse_date] on a string of eight digits, which is what
    [find_latest_log] passes: [strptime] with ['%Y%m%d'] reads four digits
    of year, two of month and two of day, and raises ValueError, which the
    function turns into [None], unless they are a day of the calendar from
    year 1 on.  ([strptime] also reads months and days of one digit; on
    strings that are not eight digits the model gives [None].) *)
Definition try_parse_date (date_string : string) : option datetime.date :=
  match list_ascii_of_string date_string with
  | [y1; y2; y3; y4; m1; m2; d1; d2] =>
      if forallb is_digit [y1; y2; y3; y4; m1; m2; d1; d2] then
        let y := digits_value 0 [y1; y2; y3; y4] in
        let m := digits_value 0 [m1; m2] in
        let d := digits_value 0 [d1; d2] in
        if ((1 <=? y) && (1 <=? m) && (m <=? 12)
            && (1 <=? d) && (d <=? days_in_month y m))%Z
        then Some {| year := y; month := m; day := d |}
        else None
      else None
  | _ => None
  end.

(** [os.path.join(a, b)] of POSIX. *)
Definition join (a b : string) : string :=
  match b with
  | String "/" _ => b
  | _ =>
      match rev (list_ascii_of_string a) with
      | [] => b
      | "/"%char :: _ => a ++ b
      | _ => a ++ "/" ++ b
      end
  end.

(** The loop of [find_latest_log] over the names of the directory, with
    its two variables. *)
Fixpoint find_latest_from (log_dir : string) (files : list string)
  (last_date : option datetime.date) (last_path : option string)
  : result (option LogFile) :=
  match files with
  | file :: rest =>
      match findall file with
      | [] => find_latest_from log_dir rest last_date last_path
      | date_string :: _ =>
          let log_path := join log_dir file in
          let log_date := try_parse_date date_string in
          match last_date with
          | None => find_latest_from log_dir rest log_date (Some log_path)
          | Some last =>
              match log_date with
              | None => Raise TypeError
              | Some d =>
                  if date_gt d last
                  then find_latest_from log_dir rest log_date (Some log_path)
                  else find_latest_from log_dir rest last_date last_path
              end
          end
      end
  | [] =>
      match last_date with
      | Some last => Ok (Some {| path := last_path; date := last |})
      | None => Ok None
      end
  end.

(** [find_latest_log], from the names that [os.listdir(log_dir)] gives. *)
Definition find_latest_log (log_dir : string) (files : list string)
  : result (option LogFile) :=
  find_latest_from log_dir files None None.

(** [str(n)] on an integer. *)
Definition str (n : Z) : string := NilZero.string_of_int (Z.to_int n).

(** [format(n, '02')]: at least two characters, zeros after the sign. *)
Definition format_02 (n : Z) : string :=
  let s := str n in
  if (String.length s <? 2)%nat then "0" ++ s else s.

(** [make_report_name_for_log]. *)
Definition make_report_name_for_log (log : LogFile) : string :=
  "report-" ++ str (year (date log)) ++ "." ++ format_02 (month (date log))
  ++ "." ++ format_02 (day (date log)) ++ ".html".

(** The names of [test_search_log]; the first three strings of the test
    have no comma between them and are one name. *)
Definition test_listdir : list string :=
  [ "filefile20180630aanginx-access-ui.log-20170631";
    "nginx-access-ui.log-20170630";
    "nginx-access-ui.log-20180630.gz";
    "nginx-access-ui.log-33333333.bz2";
    "nginx-access-ui.log-20180631.bz2";
    "nginx-access-ui.log-20180631ff";
    "nginx-access-ui.log-20180631ff.tar" ].

(** The date that the loop of [find_latest_log] reads from a name, when it
    reads one. *)
Definition log_date_of (file : string) : option datetime.date :=
  match findall file with
  | date_string :: _ => try_parse_date date_string
  | [] => None
  end.

(** A name in which the pattern finds eight digits that are no day of the
    calendar. *)
Definition has_bad_date (file : string) : bool :=
  match findall file with
  | date_string :: _ =>
      match try_parse_date date_string with
      | Some _ => false
      | None => true
      end
  | [] => false
  end.

(** The dates that [datetime.date] can hold. *)
Definition valid_date (d : datetime.date) : Prop :=
  (1 <= year d <= 9999 /\ 1 <= month d <= 12 /\
   1 <= day d <= days_in_month (year d) (month d))%Z.

(** Eight digits. *)
Definition eight_digits (d : string) : Prop :=
  String.length d = 8 /\ forallb is_digit (list_ascii_of_string d) = true.

(** A name that holds the digits [d] as the pattern of [find_latest_log]
    asks: after the literal, which starts the name or follows a character
    that is not of a word, and before [.gz], the end of the name or its
    final line feed. *)
Definition dated_name (file d : string) : Prop :=
  exists pre post,
    file = (pre ++ log_name ++ d ++ post)%string /\
    eight_digits d /\
    (pre = "" \/
     exists p a, pre = (p ++ String a "")%string /\ is_word a = false) /\
    (post = "" \/ post = String "010" "" \/
     exists t, post = (".gz" ++ t)%string).

(** The ten digits. *)
Definition digit_chars : list ascii :=
  ["0"; "1"; "2"; "3"; "4"; "5"; "6"; "7"; "8"; "9"]%char.

(** * Properties *)

(** ** The matcher against the declarative reading of patterns *)

Section Matcher.

Variable c : cls.
Variable k : cont.

Lemma greedy_sound res : forall s min pos m,
  greedy c min k s pos m = Some res ->
  exists u s', s = u ++ s' /\ forallb (cls_match c) u = true /\
               min <= length u /\ k s' (pos + length u) m = Some res.
Proof.
  assert (Hstop : forall s min pos m,
             match min with O => k s pos m | S _ => None end = Some res ->
             exists u s', s = u ++ s' /\ forallb (cls_match c) u = true /\
                          min <= length u /\ k s' (pos + length u) m = Some res).
  { intros s min pos m H. destruct min; [|discriminate].
    exists [], s. simpl. rewrite Nat.add_0_r. auto. }
  induction s as [|a s IH]; intros min pos m H; simpl in H.
  - now apply Hstop.
  - destruct (cls_match c a) eqn:Ha; [|now apply Hstop].
    destruct (greedy c (Nat.pred min) k s (S pos) m) eqn:Hg; [|now apply Hstop].
    injection H as <-.
    apply IH in Hg as (u & s' & -> & Hu & Hmin & Hk).
    exists (a :: u), s'. simpl. rewrite Ha, Hu.
    repeat split; [lia|].
    replace (pos + S (length u)) with (S pos + length u) by lia. exact Hk.
Qed.

Lemma lazy_sound res : forall s min pos m,
  lazy c min k s pos m = Some res ->
  exists u s', s = u ++ s' /\ forallb (cls_match c) u = true /\
               min <= length u /\ k s' (pos + length u) m = Some res.
Proof.
  induction s as [|a s IH]; intros min pos m H.
  - destruct min; simpl in H; [|discriminate].
    destruct (k [] pos m) eqn:Hk; [|discriminate].
    exists [], []. simpl. rewrite Nat.add_0_r. rewrite Hk. auto.
  - assert (Hmore : lazy c (Nat.pred min) k s (S pos) m = Some res ->
                    cls_match c a = true ->
                    exists u s', a :: s = u ++ s' /\ forallb (cls_match c) u = true /\
                                 min <= length u /\ k s' (pos + length u) m = Some res).
    { intros Hl Ha. apply IH in Hl as (u & s' & -> & Hu & Hmin & Hk).
      exists (a :: u), s'. simpl. rewrite Ha, Hu.
      repeat split; [lia|].
      replace (pos + S (length u)) with (S pos + length u) by lia. exact Hk. }
    destruct min; simpl in H.
    + destruct (k (a :: s) pos m) eqn:Hk.
      * injection H as <-. exists [], (a :: s). simpl.
        rewrite Nat.add_0_r. rewrite Hk. auto.
      * destruct (cls_match c a) eqn:Ha; [|discriminate]. now apply Hmore.
    + destruct (cls_match c a) eqn:Ha; [|discriminate]. now apply Hmore.
Qed.

Lemma greedy_complete : forall u s' min pos m,
  forallb (cls_match c) u = true -> min <= length u ->
  k s' (pos + length u) m <> None ->
  greedy c min k (u ++ s') pos m <> None.
Proof.
  induction u as [|a u IH]; intros s' min pos m Hu Hmin Hk; simpl in *.
  - rewrite Nat.add_0_r in Hk. assert (min = 0) as -> by lia.
    destruct s' as [|b s']; simpl; [exact Hk|].
    destruct (cls_match c b); [|exact Hk].
    destruct (greedy c 0 k s' (S pos) m); [discriminate|exact Hk].
  - apply andb_true_iff in Hu as [Ha Hu]. rewrite Ha.
    specialize (IH s' (Nat.pred min) (S pos) m Hu).
    destruct (greedy c (Nat.pred min) k (u ++ s') (S pos) m); [discriminate|].
    exfalso. apply IH; [lia| |reflexivity].
    replace (S pos + length u) with (pos + S (length u)) by lia. exact Hk.
Qed.

Lemma lazy_complete : forall u s' min pos m,
  forallb (cls_match c) u = true -> min <= length u ->
  k s' (pos + length u) m <> None ->
  lazy c min k (u ++ s') pos m <> None.
Proof.
  induction u as [|a u IH]; intros s' min pos m Hu Hmin Hk; simpl in *.
  - rewrite Nat.add_0_r in Hk. assert (min = 0) as -> by lia.
    destruct s' as [|b s']; simpl; destruct (k _ pos m); congruence.
  - apply andb_true_iff in Hu as [Ha Hu].
    specialize (IH s' (Nat.pred min) (S pos) m Hu).
    assert (Hmore : lazy c (Nat.pred min) k (u ++ s') (S pos) m <> None).
    { apply IH; [lia|].
      replace (S pos + length u) with (pos + S (length u)) by lia. exact Hk. }
    destruct min; simpl; rewrite Ha.
    + destruct (k (a :: u ++ s') pos m); [discriminate|exact Hmore].
    + exact Hmore.
Qed.

End Matcher.

(** Every match of [run] is a word of the pattern followed by a text on
    which the continuation succeeds. *)
Lemma run_sound : forall r k s pos m res,
  run r k s pos m = Some res ->
  exists w s' m', s = w ++ s' /\ parse r w pos m m' /\
                  k s' (pos + length w) m' = Some res.
Proof.
  induction r as [|[c|g min c|name|name] r IH]; intros k s pos m res H; simpl in H.
  - exists [], s, m. simpl. rewrite Nat.add_0_r. auto.
  - destruct s as [|a s]; [discriminate|].
    destruct (cls_match c a) eqn:Ha; [|discriminate].
    apply IH in H as (w & s' & m' & -> & Hp & Hk).
    exists (a :: w), s', m'. simpl. split; [reflexivity|]. split.
    + exists a, w. auto.
    + replace (pos + S (length w)) with (S pos + length w) by lia. exact Hk.
  - assert (Hrep : exists u s1, s = u ++ s1 /\ forallb (cls_match c) u = true /\
                     min <= length u /\
                     run r k s1 (pos + length u) m = Some res).
    { destruct g; [now apply greedy_sound | now apply lazy_sound]. }
    destruct Hrep as (u & s1 & -> & Hu & Hmin & Hr).
    apply IH in Hr as (w & s' & m' & -> & Hp & Hk).
    exists (u ++ w), s', m'. split; [now rewrite app_assoc|]. split.
    + simpl. exists u, w. auto.
    + rewrite length_app, Nat.add_assoc. exact Hk.
  - apply IH in H as (w & s' & m' & -> & Hp & Hk). exists w, s', m'. auto.
  - apply IH in H as (w & s' & m' & -> & Hp & Hk). exists w, s', m'. auto.
Qed.

(** [run] finds a match whenever the text begins with a word of the
    pattern after which the continuation succeeds. *)
Lemma run_complete : forall r k w s' pos m m',
  parse r w pos m m' -> k s' (pos + length w) m' <> None ->
  run r k (w ++ s') pos m <> None.
Proof.
  induction r as [|[c|g min c|name|name] r IH]; intros k w s' pos m m' Hp Hk;
    simpl in Hp.
  - destruct Hp as [-> ->]. simpl in *. now rewrite Nat.add_0_r in Hk.
  - destruct Hp as (a & w' & -> & Ha & Hp). simpl. rewrite Ha.
    apply (IH k w' s' (S pos) m m' Hp).
    replace (S pos + length w') with (pos + length (a :: w')) by (simpl; lia).
    exact Hk.
  - destruct Hp as (u & w' & -> & Hu & Hmin & Hp).
    rewrite <- app_assoc.
    assert (Hr : run r k (w' ++ s') (pos + length u) m <> None).
    { apply (IH k w' s' _ m m' Hp).
      rewrite <- Nat.add_assoc, <- length_app. exact Hk. }
    simpl. destruct g; [now apply greedy_complete | now apply lazy_complete].
  - simpl. now apply (IH k w s' pos _ m').
  - simpl. now apply (IH k w s' pos _ m').
Qed.

(** Words of a concatenation. *)
Lemma parse_app : forall r1 r2 w pos m m'',
  parse (r1 ++ r2) w pos m m'' ->
  exists w1 w2 m', w = w1 ++ w2 /\ parse r1 w1 pos m m' /\
                   parse r2 w2 (pos + length w1) m' m''.
Proof.
  induction r1 as [|[c|g min c|name|name] r1 IH]; intros r2 w pos m m'' H;
    simpl in H.
  - exists [], w, m. simpl. rewrite Nat.add_0_r. auto.
  - destruct H as (a & w' & -> & Ha & H).
    apply IH in H as (w1 & w2 & m' & -> & H1 & H2).
    exists (a :: w1), w2, m'. simpl. split; [reflexivity|]. split.
    + exists a, w1. auto.
    + replace (pos + S (length w1)) with (S pos + length w1) by lia. exact H2.
  - destruct H as (u & w' & -> & Hu & Hmin & H).
    apply IH in H as (w1 & w2 & m' & -> & H1 & H2).
    exists (u ++ w1), w2, m'. split; [now rewrite app_assoc|]. split.
    + simpl. exists u, w1. auto.
    + rewrite length_app, Nat.add_assoc. exact H2.
  - apply IH in H as (w1 & w2 & m' & -> & H1 & H2). exists w1, w2, m'. auto.
  - apply IH in H as (w1 & w2 & m' & -> & H1 & H2). exists w1, w2, m'. auto.
Qed.

(** The spans a word leaves: one per closed group, the last closed first. *)
Lemma parse_span_names : forall r w pos m m',
  parse r w pos m m' ->
  map fst (spans m') = rev (closes r) ++ map fst (spans m).
Proof.
  induction r as [|[c|g min c|name|name] r IH]; intros w pos m m' H; simpl in H.
  - destruct H as [_ ->]. reflexivity.
  - destruct H as (a & w' & -> & _ & H). now apply IH in H.
  - destruct H as (u & w' & -> & _ & _ & H). now apply IH in H.
  - apply IH in H. exact H.
  - apply IH in H. simpl in *. rewrite H, <- app_assoc. reflexivity.
Qed.

(** A span once recorded stays, as long as its group is not closed again. *)
Lemma parse_span_kept : forall r w pos m m' name,
  parse r w pos m m' -> ~ In name (closes r) ->
  lookup name (spans m') = lookup name (spans m).
Proof.
  induction r as [|[c|g min c|nm|nm] r IH]; intros w pos m m' name H Hn;
    simpl in H.
  - destruct H as [_ ->]. reflexivity.
  - destruct H as (a & w' & -> & _ & H). now apply IH with (name := name) in H.
  - destruct H as (u & w' & -> & _ & _ & H). now apply IH with (name := name) in H.
  - apply IH with (name := name) in H; [exact H | exact Hn].
  - simpl in Hn. apply IH with (name := name) in H; [|tauto].
    rewrite H. simpl. destruct (String.eqb nm name) eqn:E; [|reflexivity].
    apply String.eqb_eq in E. tauto.
Qed.

(** ** The line parser *)

Lemma list_ascii_of_string_app s t :
  list_ascii_of_string (s ++ t) = list_ascii_of_string s ++ list_ascii_of_string t.
Proof. induction s as [|a s IH]; simpl; [reflexivity | now rewrite IH]. Qed.

(** A matched line begins with a word of the grammar; the spans of the
    match are those the word leaves. *)
Lemma match_line_parse line groups :
  match_line line = Some groups ->
  exists w rest m,
    list_ascii_of_string line = w ++ rest /\
    parse log_pattern w 0 no_marks m /\
    groups = groupdict {| m_string := line; m_end := length w;
                          m_spans := rev (spans m) |}.
Proof.
  unfold match_line, rmatch. intros H.
  destruct (run log_pattern accept (list_ascii_of_string line) 0 no_marks)
    as [[e m]|] eqn:Hr; [|discriminate].
  apply run_sound in Hr as (w & rest & m' & Hw & Hp & Hk).
  injection Hk as <- <-. injection H as <-.
  exists w, rest, m'. auto.
Qed.

Lemma matched_iff_word line :
  matched line = true <->
  exists w rest m, list_ascii_of_string line = w ++ rest /\
                   parse log_pattern w 0 no_marks m.
Proof.
  unfold matched. split.
  - destruct (match_line line) as [g|] eqn:H; [|discriminate]. intros _.
    apply match_line_parse in H as (w & rest & m & Hw & Hp & _). eauto.
  - intros (w & rest & m & Hw & Hp).
    unfold match_line, rmatch. rewrite Hw.
    pose proof (run_complete log_pattern accept w rest 0 no_marks m Hp) as Hc.
    destruct (run log_pattern accept (w ++ rest) 0 no_marks) as [[e m']|].
    + reflexivity.
    + exfalso. apply Hc; [discriminate | reflexivity].
Qed.

(** C10. The parser matches a prefix of the line: a line that is matched
    stays matched whatever text is appended to it. *)
Theorem matched_closed_under_append :
  forall line suffix : string,
    matched line = true -> matched (line ++ suffix) = true.
Proof.
  intros line suffix H.
  apply matched_iff_word in H as (w & rest & m & Hw & Hp).
  apply matched_iff_word.
  exists w, (rest ++ list_ascii_of_string suffix), m. split; [|exact Hp].
  rewrite list_ascii_of_string_app, Hw, app_assoc. reflexivity.
Qed.

Lemma matched_closed_under_append_witness :
  matched spec_line = true /\
  matched (spec_line ++ " and any trailing text") = true.
Proof.
  split; [vm_compute; reflexivity|].
  apply (matched_closed_under_append spec_line " and any trailing text").
  vm_compute; reflexivity.
Defined.

(** *** Dictionaries kept as association lists *)

Lemma lookup_app {V : Type} k (a b : list (string * V)) :
  lookup k (a ++ b) = match lookup k a with Some v => Some v | None => lookup k b end.
Proof.
  induction a as [|[k' v] a IH]; simpl; [reflexivity|].
  destruct (String.eqb k' k); [reflexivity | exact IH].
Qed.

Lemma lookup_notin {V : Type} k (d : list (string * V)) :
  ~ In k (map fst d) -> lookup k d = None.
Proof.
  induction d as [|[k' v] d IH]; simpl; intros H; [reflexivity|].
  destruct (String.eqb k' k) eqn:E.
  - apply String.eqb_eq in E. tauto.
  - apply IH. tauto.
Qed.

Lemma lookup_rev {V : Type} k (d : list (string * V)) :
  NoDup (map fst d) -> lookup k (rev d) = lookup k d.
Proof.
  induction d as [|[k' v] d IH]; simpl; intros H; [reflexivity|].
  inversion H as [|? ? Hn Hd]; subst.
  rewrite lookup_app, IH by exact Hd. simpl.
  destruct (String.eqb k' k) eqn:E.
  - apply String.eqb_eq in E. subst k'. now rewrite lookup_notin.
  - now destruct (lookup k d).
Qed.

Lemma lookup_map_values {V W : Type} (f : V -> W) k (d : list (string * V)) :
  lookup k (map (fun kv => (fst kv, f (snd kv))) d) = option_map f (lookup k d).
Proof.
  induction d as [|[k' v] d IH]; simpl; [reflexivity|].
  destruct (String.eqb k' k); [reflexivity | exact IH].
Qed.

(** *** Texts of groups *)

Lemma substring_prefix b c :
  substring 0 (length b) (string_of_list_ascii (b ++ c)) = string_of_list_ascii b.
Proof.
  induction b as [|x b IH]; simpl.
  - now destruct (string_of_list_ascii c).
  - now rewrite IH.
Qed.

Lemma substring_middle a b c :
  substring (length a) (length b) (string_of_list_ascii (a ++ b ++ c))
  = string_of_list_ascii b.
Proof.
  induction a as [|x a IH]; simpl; [apply substring_prefix | exact IH].
Qed.

Lemma parse_marks_free : forall r w pos m m',
  marks_free r = true -> parse r w pos m m' -> m' = m.
Proof.
  induction r as [|[c|g min c|name|name] r IH]; intros w pos m m' Hf H;
    simpl in *; try discriminate.
  - now destruct H.
  - destruct H as (a & w' & _ & _ & H). now apply IH in H.
  - destruct H as (u & w' & _ & _ & _ & H). now apply IH in H.
Qed.

(** The span of a group is where its body matched. *)
Lemma parse_group_span r1 name body r2 w m' :
  parse (r1 ++ group name body ++ r2) w 0 no_marks m' ->
  marks_free body = true -> ~ In name (closes r2) ->
  exists w1 wb w2 m,
    w = w1 ++ wb ++ w2 /\ parse body wb (length w1) m m /\
    lookup name (spans m') = Some (length w1, length w1 + length wb).
Proof.
  intros H Hf Hn.
  apply parse_app in H as (w1 & w' & m1 & -> & _ & H). simpl in H.
  rewrite <- app_assoc in H.
  apply parse_app in H as (wb & w2 & mb & -> & Hb & H). simpl in H.
  pose proof (parse_marks_free _ _ _ _ _ Hf Hb) as ->.
  exists w1, wb, w2, (mark_open name (length w1) m1).
  split; [reflexivity|]. split; [exact Hb|].
  rewrite (parse_span_kept _ _ _ _ _ name H Hn). simpl.
  unfold start_of. simpl. now rewrite String.eqb_refl.
Qed.

Lemma log_pattern_names_NoDup : NoDup (rev (closes log_pattern)).
Proof.
  apply NoDup_rev. vm_compute closes.
  repeat (constructor; [simpl; intros H; repeat (destruct H as [H|H]; [discriminate H|]); exact H|]).
  constructor.
Qed.

(** The text a matched line gives to a group of the grammar. *)
Lemma match_line_group line groups r1 name body r2 :
  match_line line = Some groups ->
  log_pattern = r1 ++ group name body ++ r2 ->
  marks_free body = true -> ~ In name (closes r2) ->
  exists w1 wb w2 m,
    list_ascii_of_string line = w1 ++ wb ++ w2 /\
    parse body wb (length w1) m m /\
    lookup name groups = Some (string_of_list_ascii wb).
Proof.
  intros Hm Hpat Hf Hn.
  apply match_line_parse in Hm as (w & rest & m & Hw & Hp & ->).
  pose proof (parse_span_names _ _ _ _ _ Hp) as Hnames.
  change (map fst (spans no_marks)) with (@nil string) in Hnames.
  rewrite app_nil_r in Hnames.
  rewrite Hpat in Hp.
  apply parse_group_span in Hp as (w1 & wb & w2 & mb & -> & Hb & Hs);
    [|exact Hf|exact Hn].
  exists w1, wb, (w2 ++ rest), mb.
  split; [now rewrite Hw, <- !app_assoc|]. split; [exact Hb|].
  unfold groupdict. simpl m_spans. simpl m_string.
  rewrite (lookup_map_values
             (fun sp => substring (fst sp) (snd sp - fst sp) line)).
  rewrite lookup_rev, Hs
    by (rewrite Hnames; exact log_pattern_names_NoDup).
  simpl. f_equal.
  replace (length w1 + length wb - length w1) with (length wb) by lia.
  rewrite <- (string_of_list_ascii_of_string line), Hw, <- !app_assoc.
  apply substring_middle.
Qed.

Lemma dot_word_has_no_newline u :
  forallb (cls_match Dot) u = true ->
  has_newline (string_of_list_ascii u) = false.
Proof.
  unfold has_newline. rewrite list_ascii_of_string_of_list_ascii.
  induction u as [|a u IH]; simpl; [reflexivity|].
  intros H. apply andb_true_iff in H as [Ha Hu].
  rewrite (IH Hu). now destruct (Ascii.eqb a "010").
Qed.

Lemma match_line_request_url line groups :
  match_line line = Some groups ->
  exists u, lookup "request_url" groups = Some u /\ has_newline u = false.
Proof.
  intros Hm.
  destruct (match_line_group line groups (firstn 23 log_pattern) "request_url"
              [lazy_star Dot] (skipn 26 log_pattern) Hm)
    as (w1 & wb & w2 & m & Hw & Hb & Hl).
  - reflexivity.
  - reflexivity.
  - vm_compute. intros H. repeat (destruct H as [H|H]; [discriminate H|]). exact H.
  - exists (string_of_list_ascii wb). split; [exact Hl|].
    simpl in Hb. destruct Hb as (u & w' & -> & Hu & _ & -> & _).
    rewrite app_nil_r. now apply dot_word_has_no_newline.
Qed.

(** C8, as the code has it.  The record of a matched line has a
    [request_url], a text without line feed; it may be empty, as the
    grammar reads it with [.*?]. *)
Theorem request_url_of_matched_line :
  forall (line : string) (groups : record),
    match_line line = Some groups ->
    exists u, lookup "request_url" groups = Some u /\ has_newline u = false.
Proof. intros line groups. apply match_line_request_url. Qed.

Lemma request_url_of_matched_line_witness :
  exists u, lookup "request_url"
              [("remote_addr", "1.199.168.112");
               ("remote_user", "2a828197ae235b0b3cb");
               ("http_x_real_ip", "-");
               ("time_local", "29/Jun/2017:03:50:44 +0300");
               ("request_method", "GET");
               ("request_url", "/api/1/banners/?campaign=6607623");
               ("request_protocol", "HTTP/1.1");
               ("status", "200");
               ("body_bytes_sent", "1130");
               ("http_referer", "-");
               ("http_user_agent", "Lynx/2.8.8dev.9");
               ("http_x_forwarded_for", "-");
               ("http_X_REQUEST_ID", "1498697444-2760328665-4709-9929070");
               ("http_X_RB_USER", "-");
               ("request_time", "0.767")] = Some u
            /\ has_newline u = false.
Proof.
  apply (request_url_of_matched_line spec_line).
  vm_compute. reflexivity.
Defined.

(** C8 fails as stated: a request with two adjacent blanks is matched with
    the empty [request_url]. *)
Lemma request_url_can_be_empty :
  exists groups,
    match_line (log_line "GET  HTTP/1.1" "0.767") = Some groups /\
    lookup "request_url" groups = Some "".
Proof. eexists. split; vm_compute; reflexivity. Qed.

(** *** The request time *)

Lemma skip_digits_app d t :
  forallb is_digit d = true -> skip_digits (d ++ t) = skip_digits t.
Proof.
  induction d as [|a d IH]; simpl; [reflexivity|].
  intros H. apply andb_true_iff in H as [Ha Hd]. rewrite Ha. now apply IH.
Qed.

Lemma starts_with_decimal_intro d1 d2 t :
  forallb is_digit d1 = true -> 1 <= length d1 ->
  forallb is_digit d2 = true -> 1 <= length d2 ->
  starts_with_decimal (d1 ++ "."%char :: d2 ++ t) = true.
Proof.
  intros H1 L1 H2 L2.
  destruct d1 as [|a d1]; [simpl in L1; lia|].
  destruct d2 as [|f d2]; [simpl in L2; lia|].
  simpl in *. apply andb_true_iff in H1 as [Ha H1].
  apply andb_true_iff in H2 as [Hf H2].
  rewrite Ha, (skip_digits_app d1 _ H1). simpl. now rewrite Hf.
Qed.

Lemma time_field_in_app w s :
  time_field_at s = true -> time_field_in (w ++ s) = true.
Proof.
  intros H. induction w as [|a w IH]; simpl.
  - destruct s; simpl in *; [discriminate|]. now rewrite H.
  - rewrite IH. apply orb_true_r.
Qed.

(** A matched line has, somewhere, a double quote, a whitespace character
    and a numeral [\d+\.\d+]. *)
Lemma matched_has_time_field line :
  matched line = true -> has_time_field line = true.
Proof.
  intros H. apply matched_iff_word in H as (w & rest & m & Hw & Hp).
  change log_pattern
    with (firstn 68 log_pattern ++
          [lit dq; One Space; Open "request_time"; plus Digit; lit ".";
           plus Digit; Close "request_time"; star Space]) in Hp.
  apply parse_app in Hp as (w1 & w2 & m1 & -> & _ & Hp).
  simpl in Hp.
  destruct Hp as (q & t1 & -> & Hq & sp & t2 & -> & Hsp & d1 & t3 & -> & Hd1 &
                  L1 & p & t4 & -> & Hp & d2 & t5 & -> & Hd2 & L2 & _).
  unfold has_time_field. rewrite Hw, <- app_assoc.
  apply time_field_in_app. simpl time_field_at.
  apply Ascii.eqb_eq in Hp. subst p.
  rewrite Hq, Hsp. simpl.
  rewrite <- ?app_assoc. simpl. rewrite <- ?app_assoc.
  now apply starts_with_decimal_intro.
Qed.

(** C7, as the code has it.  A line in which no double quote and whitespace
    character are followed by a numeral [\d+\.\d+] is unmatched; this is
    the case of a request time written as a bare integer. *)
Theorem line_without_time_field_is_unmatched :
  forall line : string,
    has_time_field line = false -> match_line line = None.
Proof.
  intros line H.
  pose proof (matched_has_time_field line) as Hm. unfold matched in Hm.
  destruct (match_line line); [|reflexivity].
  rewrite Hm in H by reflexivity. discriminate.
Qed.

Lemma line_without_time_field_is_unmatched_witness :
  has_time_field (log_line "GET /api/v2/banner/1 HTTP/1.1" "15") = false /\
  match_line (log_line "GET /api/v2/banner/1 HTTP/1.1" "15") = None.
Proof.
  split; [vm_compute; reflexivity|].
  apply (line_without_time_field_is_unmatched
           (log_line "GET /api/v2/banner/1 HTTP/1.1" "15")).
  vm_compute. reflexivity.
Defined.

(** C7 fails as stated: a request time in scientific notation is not of
    the form [\d+\.\d+], and its line is matched, with the digits before
    the exponent as [request_time]. *)
Lemma scientific_notation_is_matched :
  is_decimal "1.5e3" = false /\
  exists groups,
    match_line (log_line "GET /api/v2/banner/1 HTTP/1.1" "1.5e3") = Some groups /\
    lookup "request_time" groups = Some "1.5".
Proof.
  split; [reflexivity|]. eexists. split; vm_compute; reflexivity.
Qed.

(** ** The line stream processor *)

Lemma is_too_many_missed_lines_spec missed total limit_perc :
  total <> 0%Z ->
  exists b, is_too_many_missed_lines missed total limit_perc = Ok b /\
            (b = true <->
             (inject_Z limit_perc <= inject_Z missed / inject_Z total * 100)%Q).
Proof.
  intros Ht. unfold is_too_many_missed_lines, truediv.
  destruct (Qeq_bool (inject_Z total) 0) eqn:E.
  - apply Qeq_bool_iff in E. exfalso. apply Ht.
    unfold Qeq in E. simpl in E. lia.
  - simpl. eexists. split; [reflexivity|]. apply Qle_bool_iff.
Qed.

Lemma unmatched_count_cons line lines :
  unmatched_count (line :: lines)
  = ((if matched line then 0 else 1) + unmatched_count lines)%Z.
Proof.
  unfold unmatched_count, len. simpl.
  destruct (matched line); simpl length; lia.
Qed.

Lemma unmatched_count_bounds lines :
  (0 <= unmatched_count lines <= len lines)%Z.
Proof.
  unfold unmatched_count, len.
  pose proof (filter_length_le (fun line => negb (matched line)) lines). lia.
Qed.

(** What the generator yields and how it ends, from any state of its
    counters. *)
Lemma parse_lines_from_trace : forall lines missed_count total_lines,
  yields (parse_lines_from lines missed_count total_lines) = matched_records lines /\
  ending (parse_lines_from lines missed_count total_lines)
  = ending (parse_lines_end (missed_count + unmatched_count lines)
                            (total_lines + len lines)).
Proof.
  induction lines as [|line lines IH]; intros mc tl.
  - change (unmatched_count []) with 0%Z. change (len (@nil string)) with 0%Z.
    rewrite !Z.add_0_r. split; [|reflexivity].
    simpl. unfold parse_lines_end.
    destruct (tl =? 0)%Z; [reflexivity|].
    now destruct (is_too_many_missed_lines mc tl limit_perc_default) as [[|]|].
  - simpl parse_lines_from. simpl matched_records.
    rewrite unmatched_count_cons. unfold matched.
    replace (len (line :: lines)) with (1 + len lines)%Z
      by (unfold len; simpl length; lia).
    destruct (match_line line) as [g|]; cbn [yields ending]; lazy iota beta;
      destruct (IH mc (tl + 1)%Z) as [Hy He];
      destruct (IH (mc + 1)%Z (tl + 1)%Z) as [Hy' He'].
    + rewrite Hy, He. split; [reflexivity|]. do 2 f_equal; lia.
    + rewrite Hy', He'. split; [reflexivity|]. do 2 f_equal; lia.
Qed.

Lemma len_pos {A : Type} (l : list A) : l <> [] -> (0 < len l)%Z.
Proof. destruct l; [congruence|]. intros _. unfold len. simpl length. lia. Qed.

(** The end of [parse_lines] on a stream with a line. *)
Lemma parse_lines_ending lines :
  lines <> [] ->
  exists b,
    is_too_many_missed_lines (unmatched_count lines) (len lines)
      limit_perc_default = Ok b /\
    (b = true <-> (inject_Z limit_perc_default <= unmatched_perc lines)%Q) /\
    ending (parse_lines lines) = if b then Raise too_many_missed else Ok tt.
Proof.
  intros Hne. pose proof (len_pos lines Hne) as Hpos.
  destruct (is_too_many_missed_lines_spec (unmatched_count lines) (len lines)
              limit_perc_default) as (b & Hb & Hiff); [lia|].
  exists b. split; [exact Hb|]. split; [exact Hiff|].
  unfold parse_lines.
  destruct (parse_lines_from_trace lines 0 0) as [_ ->]. simpl Z.add.
  unfold parse_lines_end.
  destruct (len lines =? 0)%Z eqn:E; [apply Z.eqb_eq in E; lia|].
  rewrite Hb. now destruct b.
Qed.

(** C3. On a stream with at least one line, every matched line is yielded,
    whatever the end; the generator ends with the error of too many missed
    lines exactly when the unmatched percentage reaches the threshold (the
    default 30 of [limit_perc]), and ends normally exactly when it stays
    below.  The comparison is inclusive: 5 missed of 10 at threshold 50 is
    too many, 1 of 10 is not. *)
Theorem parse_lines_terminal_check :
  forall lines : list string,
    lines <> [] ->
    yields (parse_lines lines) = matched_records lines /\
    (ending (parse_lines lines) = Raise too_many_missed <->
     (inject_Z limit_perc_default <= unmatched_perc lines)%Q) /\
    (ending (parse_lines lines) = Ok tt <->
     (unmatched_perc lines < inject_Z limit_perc_default)%Q) /\
    is_too_many_missed_lines 5 10 50 = Ok true /\
    is_too_many_missed_lines 1 10 50 = Ok false.
Proof.
  intros lines Hne.
  destruct (parse_lines_ending lines Hne) as (b & _ & Hiff & He).
  split; [apply (parse_lines_from_trace lines 0 0)|].
  rewrite He. repeat split; try reflexivity.
  - intros H. apply Hiff. destruct b; [reflexivity | discriminate].
  - intros H. apply Hiff in H. now subst b.
  - intros H. apply Qnot_le_lt. intros Hle. apply Hiff in Hle.
    subst b. discriminate.
  - intros H. destruct b; [|reflexivity].
    exfalso. apply (Qlt_not_le _ _ H). now apply Hiff.
Qed.

Lemma parse_lines_terminal_check_witness :
  yields (parse_lines four_of_ten) = matched_records four_of_ten /\
  (ending (parse_lines four_of_ten) = Raise too_many_missed <->
   (inject_Z limit_perc_default <= unmatched_perc four_of_ten)%Q) /\
  (ending (parse_lines four_of_ten) = Ok tt <->
   (unmatched_perc four_of_ten < inject_Z limit_perc_default)%Q) /\
  is_too_many_missed_lines 5 10 50 = Ok true /\
  is_too_many_missed_lines 1 10 50 = Ok false.
Proof.
  apply (parse_lines_terminal_check four_of_ten).
  unfold four_of_ten. simpl. discriminate.
Defined.

(** C4. The generator ends with the error of an empty log exactly when the
    stream has no line; a stream whose lines are all unmatched yields no
    record and ends with the error of too many missed lines. *)
Theorem parse_lines_empty_input :
  forall lines : list string,
    (ending (parse_lines lines) = Raise empty_log <-> lines = []) /\
    (lines <> [] -> Forall (fun line => matched line = false) lines ->
     yields (parse_lines lines) = [] /\
     ending (parse_lines lines) = Raise too_many_missed).
Proof.
  intros lines. split; [split|].
  - intros H. destruct lines as [|line lines]; [reflexivity|]. exfalso.
    destruct (parse_lines_ending (line :: lines)) as (b & _ & _ & He);
      [discriminate|].
    rewrite He in H. destruct b; discriminate.
  - intros ->. reflexivity.
  - intros Hne Hall.
    destruct (parse_lines_ending lines Hne) as (b & _ & Hiff & He).
    split.
    + destruct (parse_lines_from_trace lines 0 0) as [Hy _].
      unfold parse_lines. rewrite Hy. clear -Hall.
      induction Hall as [|line lines Hl _ IH]; [reflexivity|].
      simpl. unfold matched in Hl.
      destruct (match_line line); [discriminate | exact IH].
    + rewrite He. assert (b = true) as ->; [|reflexivity].
      apply Hiff. unfold unmatched_perc.
      assert (unmatched_count lines = len lines) as ->.
      { unfold unmatched_count. f_equal. clear -Hall.
        induction Hall as [|line lines Hl _ IH]; [reflexivity|].
        simpl. rewrite Hl. simpl. now rewrite IH. }
      pose proof (len_pos lines Hne) as Hpos.
      unfold limit_perc_default.
      assert (Hnz : ~ (inject_Z (len lines) == 0)%Q).
      { unfold Qeq. simpl. lia. }
      setoid_replace (inject_Z (len lines) / inject_Z (len lines))%Q with 1%Q
        by (field; exact Hnz).
      unfold Qle. simpl. lia.
Qed.

Lemma parse_lines_empty_input_witness :
  (ending (parse_lines ["not a log line"; "nor this one"]) = Raise empty_log <->
   ["not a log line"; "nor this one"] = []) /\
  yields (parse_lines ["not a log line"; "nor this one"]) = [] /\
  ending (parse_lines ["not a log line"; "nor this one"]) = Raise too_many_missed.
Proof.
  destruct (parse_lines_empty_input ["not a log line"; "nor this one"])
    as [H1 H2].
  split; [exact H1|]. apply H2; [discriminate|].
  repeat constructor.
Defined.

(** ** The aggregator on the records of the parser *)

Lemma digit_is_not_dot a : is_digit a = true -> Ascii.eqb a "." = false.
Proof.
  intros H. destruct (Ascii.eqb a ".") eqn:E; [|reflexivity].
  apply Ascii.eqb_eq in E. subst a. discriminate H.
Qed.

Lemma split_at_dot_decimal d1 d2 :
  forallb is_digit d1 = true ->
  split_at_dot (d1 ++ "."%char :: d2) = (d1, Some d2).
Proof.
  induction d1 as [|a d1 IH]; simpl; [reflexivity|].
  intros H. apply andb_true_iff in H as [Ha Hd].
  now rewrite (digit_is_not_dot a Ha), (IH Hd).
Qed.

Lemma all_digits_intro d :
  forallb is_digit d = true -> 1 <= length d -> all_digits d = true.
Proof.
  intros H L. unfold all_digits. rewrite H.
  destruct d; [simpl in L; lia | reflexivity].
Qed.

(** [float] reads every numeral of the form [\d+\.\d+]. *)
Lemma float_decimal d1 d2 :
  forallb is_digit d1 = true -> 1 <= length d1 ->
  forallb is_digit d2 = true -> 1 <= length d2 ->
  exists x, float (string_of_list_ascii (d1 ++ "."%char :: d2)) = Ok x.
Proof.
  intros H1 L1 H2 L2. unfold float.
  rewrite list_ascii_of_string_of_list_ascii, split_at_dot_decimal by exact H1.
  rewrite !all_digits_intro by assumption. simpl. eauto.
Qed.

(** Every record of the parser has a URL and a time that [float] reads. *)
Lemma match_line_readable line groups :
  match_line line = Some groups -> readable groups.
Proof.
  intros Hm.
  destruct (match_line_request_url line groups Hm) as (u & Hu & _).
  destruct (match_line_group line groups (firstn 70 log_pattern) "request_time"
              [plus Digit; lit "."; plus Digit] [star Space] Hm)
    as (w1 & wb & w2 & m & Hw & Hb & Hl).
  - reflexivity.
  - reflexivity.
  - simpl. tauto.
  - simpl in Hb.
    destruct Hb as (d1 & t1 & -> & Hd1 & L1 & p & t2 & -> & Hp & d2 & t3 & -> &
                    Hd2 & L2 & -> & _).
    apply Ascii.eqb_eq in Hp. subst p. rewrite app_nil_r in Hl.
    destruct (float_decimal d1 d2 Hd1 L1 Hd2 L2) as (x & Hx).
    exists u, (string_of_list_ascii (d1 ++ "."%char :: d2)), x. auto.
Qed.

Lemma matched_records_readable lines :
  Forall readable (matched_records lines).
Proof.
  induction lines as [|line lines IH]; simpl; [constructor|].
  destruct (match_line line) as [g|] eqn:E; [|exact IH].
  constructor; [now apply (match_line_readable line) | exact IH].
Qed.

(** On readable records the aggregator ends as its input does. *)
Lemma collect_times_from_ending : forall (g : gen record) acc,
  Forall readable (yields g) ->
  match ending g with
  | Raise e => collect_times_from g acc = Raise e
  | Ok _ => exists tm, collect_times_from g acc = Ok tm
  end.
Proof.
  induction g as [groups rest IH| |e]; intros acc H; simpl.
  - simpl in H. inversion H as [|? ? (u & t & x & Hu & Ht & Hx) Hrest]; subst.
    unfold getitem. rewrite Hu, Ht. simpl. rewrite Hx. simpl.
    apply IH. exact Hrest.
  - eauto.
  - reflexivity.
Qed.

Lemma bind_raise {A B : Type} (r : result A) (f : A -> result B) e :
  bind r f = Raise e -> r = Raise e \/ exists a, r = Ok a /\ f a = Raise e.
Proof. destruct r as [a|e']; simpl; intros H; [right; eauto | left; congruence]. Qed.

Lemma index_raise {A : Type} (l : list A) i e :
  index l i = Raise e -> e = IndexError.
Proof.
  unfold index. destruct (_ && _)%bool; [|congruence].
  destruct (nth_error _ _); congruence.
Qed.

Lemma truediv_raise a b e : truediv a b = Raise e -> e = ZeroDivisionError.
Proof. unfold truediv. destruct (Qeq_bool b 0); congruence. Qed.

Lemma calc_median_raise l e :
  calc_median l = Raise e -> e = IndexError \/ e = ZeroDivisionError.
Proof.
  unfold calc_median. destruct (_ =? 1)%Z.
  - intros H. left. now apply index_raise in H.
  - intros H. apply bind_raise in H as [H|(a & _ & H)];
      [left; now apply index_raise in H|].
    apply bind_raise in H as [H|(b & _ & H)];
      [left; now apply index_raise in H|].
    right. now apply truediv_raise in H.
Qed.

(** The statistics never raise a RuntimeError. *)
Lemma analyze_requests_raise tm e :
  analyze_requests tm = Raise e -> forall msg, e <> RuntimeError msg.
Proof.
  unfold analyze_requests. destruct (totals tm) as [tc tt].
  generalize tm at 1. intros items. revert e.
  induction items as [|[u times] items IH]; intros e H msg; simpl in H;
    [discriminate|].
  apply bind_raise in H as [H|(row & _ & H)].
  - unfold analyze_url in H.
    apply bind_raise in H as [H|(hi & _ & H)].
    { destruct times; simpl in H; [|discriminate]. injection H as <-. discriminate. }
    apply bind_raise in H as [H|(cp & _ & H)];
      [apply truediv_raise in H; subst; discriminate|].
    apply bind_raise in H as [H|(tp & _ & H)];
      [apply truediv_raise in H; subst; discriminate|].
    apply bind_raise in H as [H|(ta & _ & H)];
      [apply truediv_raise in H; subst; discriminate|].
    apply bind_raise in H as [H|(md & _ & H)]; [|discriminate].
    apply calc_median_raise in H as [-> | ->]; discriminate.
  - apply bind_raise in H as [H|(rows & _ & H)]; [|discriminate].
    exact (IH e H msg).
Qed.

(** [main] raises the error of too many missed lines exactly when
    [parse_lines] ends with it, whatever the configuration. *)
Lemma main_too_many_missed cfg lines :
  main cfg lines = Raise too_many_missed <->
  ending (parse_lines lines) = Raise too_many_missed.
Proof.
  unfold main, collect_times_for_urls.
  pose proof (collect_times_from_ending (parse_lines lines) []) as Hc.
  assert (Hr : Forall readable (yields (parse_lines lines))).
  { destruct (parse_lines_from_trace lines 0 0) as [Hy _].
    unfold parse_lines. rewrite Hy. apply matched_records_readable. }
  specialize (Hc Hr). split.
  - intros H. apply bind_raise in H as [H|(tm & Htm & H)].
    + destruct (ending (parse_lines lines)) as [[]|e].
      * destruct Hc as (tm & Hc). congruence.
      * congruence.
    + exfalso. apply bind_raise in H as [H|(rows & _ & H)].
      * now apply (analyze_requests_raise _ _ H "Too many missed lines. Aborted.").
      * apply bind_raise in H as [H|(v & _ & H)].
        -- unfold getitem in H. destruct (lookup _ cfg); discriminate.
        -- destruct v; discriminate.
  - intros H. rewrite H in Hc. now rewrite Hc.
Qed.

(** C9, as the code has it.  The configuration does not supply the
    tolerance: whatever the configuration holds, the run ends with the
    error of too many missed lines exactly when the unmatched percentage
    reaches 30, the default of [limit_perc]. *)
Theorem tolerance_is_the_default :
  forall (cfg : config) (lines : list string),
    lines <> [] ->
    (main cfg lines = Raise too_many_missed <->
     (inject_Z 30 <= unmatched_perc lines)%Q).
Proof.
  intros cfg lines Hne. rewrite main_too_many_missed.
  destruct (parse_lines_ending lines Hne) as (b & _ & Hiff & ->).
  rewrite <- Hiff. destruct b; split; intros H; try reflexivity; discriminate.
Qed.

Lemma tolerance_is_the_default_witness :
  main (set_config (Some [("MISSED_LINES_LIMIT", JInt 50)])) four_of_ten
  = Raise too_many_missed <->
  (inject_Z 30 <= unmatched_perc four_of_ten)%Q.
Proof.
  apply (tolerance_is_the_default
           (set_config (Some [("MISSED_LINES_LIMIT", JInt 50)])) four_of_ten).
  unfold four_of_ten. simpl. discriminate.
Defined.

(** C9 fails as stated: with four lines of ten unmatched (40 percent), the
    run ends with the error of too many missed lines although the custom
    configuration gives 50 under a key, whatever the key. *)
Lemma configured_tolerance_is_ignored :
  (unmatched_perc four_of_ten == 40)%Q /\
  forall key : string,
    main (set_config (Some [(key, JInt 50)])) four_of_ten = Raise too_many_missed.
Proof.
  split; [vm_compute; reflexivity|].
  intros key. apply main_too_many_missed. vm_compute. reflexivity.
Qed.

(** ** The median *)

Lemma Qle_bool_false x y : Qle_bool x y = false -> (y < x)%Q.
Proof.
  intros H. apply Qnot_le_lt. intros Hle.
  apply Qle_bool_iff in Hle. congruence.
Qed.

Lemma insert_asc_perm x l : Permutation (insert_asc x l) (x :: l).
Proof.
  induction l as [|y l IH]; simpl; [reflexivity|].
  destruct (Qle_bool x y); [reflexivity|].
  rewrite IH. apply perm_swap.
Qed.

Lemma sorted_perm l : Permutation (sorted l) l.
Proof.
  induction l as [|x l IH]; simpl; [constructor|].
  rewrite insert_asc_perm. now constructor.
Qed.

Lemma insert_asc_sorted x l :
  StronglySorted Qle l -> StronglySorted Qle (insert_asc x l).
Proof.
  induction 1 as [|y l Hs IH Hy]; simpl.
  - repeat constructor.
  - destruct (Qle_bool x y) eqn:E.
    + apply Qle_bool_iff in E. constructor; [now constructor|].
      constructor; [exact E|].
      eapply Forall_impl; [|exact Hy]. intros z Hz. now apply Qle_trans with y.
    + apply Qle_bool_false in E. constructor; [exact IH|].
      rewrite (insert_asc_perm x l). constructor; [now apply Qlt_le_weak | exact Hy].
Qed.

Lemma sorted_sorted l : StronglySorted Qle (sorted l).
Proof.
  induction l as [|x l IH]; simpl; [constructor | now apply insert_asc_sorted].
Qed.

Lemma count_le_perm v s1 s2 :
  Permutation s1 s2 -> count_le v s1 = count_le v s2.
Proof.
  unfold count_le. induction 1 as [|x l l' _ IH|x y l|l l' l'' _ IH1 _ IH2]; simpl.
  - reflexivity.
  - destruct (Qle_bool x v); simpl; now rewrite IH.
  - destruct (Qle_bool x v), (Qle_bool y v); reflexivity.
  - now rewrite IH1.
Qed.

Lemma count_lt_perm v s1 s2 :
  Permutation s1 s2 -> count_lt v s1 = count_lt v s2.
Proof.
  unfold count_lt. induction 1 as [|x l l' _ IH|x y l|l l' l'' _ IH1 _ IH2]; simpl.
  - reflexivity.
  - destruct (Qle_bool v x); simpl; now rewrite IH.
  - destruct (Qle_bool v x), (Qle_bool v y); reflexivity.
  - now rewrite IH1.
Qed.

Lemma count_le_below_lt v1 v2 s :
  (v1 < v2)%Q -> count_le v1 s <= count_lt v2 s.
Proof.
  intros Hlt. unfold count_le, count_lt.
  induction s as [|x s IH]; simpl; [lia|].
  destruct (Qle_bool x v1) eqn:E1; destruct (Qle_bool v2 x) eqn:E2; simpl; try lia.
  apply Qle_bool_iff in E1, E2. exfalso.
  apply (Qlt_irrefl v1). apply Qlt_le_trans with v2; [exact Hlt|].
  now apply Qle_trans with x.
Qed.

Lemma count_lt_none v s : Forall (Qle v) s -> count_lt v s = 0.
Proof.
  unfold count_lt. induction 1 as [|x s Hx _ IH]; simpl; [reflexivity|].
  apply Qle_bool_iff in Hx. now rewrite Hx.
Qed.

Lemma count_lt_cons v x s : count_lt v (x :: s) <= S (count_lt v s).
Proof. unfold count_lt. simpl. destruct (Qle_bool v x); simpl; lia. Qed.

(** In a sorted list, the item at index [i] has more than [i] items not
    above it and at most [i] items below it. *)
Lemma sorted_nth_count_le s :
  StronglySorted Qle s ->
  forall i, i < length s -> i < count_le (nth i s 0%Q) s.
Proof.
  induction 1 as [|a s Hs IH Ha]; intros i Hi; simpl in Hi; [lia|].
  destruct i as [|i]; simpl nth.
  - unfold count_le. simpl.
    assert (Qle_bool a a = true) as -> by (apply Qle_bool_iff, Qle_refl).
    simpl. lia.
  - assert (Hi' : i < length s) by lia.
    specialize (IH i Hi'). unfold count_le in *. simpl.
    assert (Qle_bool a (nth i s 0%Q) = true) as ->.
    { apply Qle_bool_iff. rewrite Forall_forall in Ha. apply Ha.
      now apply nth_In. }
    simpl. lia.
Qed.

Lemma sorted_nth_count_lt s :
  StronglySorted Qle s ->
  forall i, i < length s -> count_lt (nth i s 0%Q) s <= i.
Proof.
  induction 1 as [|a s Hs IH Ha]; intros i Hi; simpl in Hi; [lia|].
  destruct i as [|i]; simpl nth.
  - rewrite count_lt_none; [lia|]. constructor; [apply Qle_refl | exact Ha].
  - assert (Hi' : i < length s) by lia.
    specialize (IH i Hi').
    pose proof (count_lt_cons (nth i s 0%Q) a s). lia.
Qed.

(** Two sorted arrangements of the same items agree index by index. *)
Lemma sorted_arrangements_agree s1 s2 :
  Permutation s1 s2 -> StronglySorted Qle s1 -> StronglySorted Qle s2 ->
  forall i, i < length s1 -> (nth i s1 0 == nth i s2 0)%Q.
Proof.
  intros Hp H1 H2 i Hi.
  assert (Hi2 : i < length s2) by now rewrite <- (Permutation_length Hp).
  assert (Hno : forall t1 t2, Permutation t1 t2 -> StronglySorted Qle t1 ->
                  StronglySorted Qle t2 -> i < length t1 -> i < length t2 ->
                  ~ (nth i t1 0 < nth i t2 0)%Q).
  { intros t1 t2 Hpt Ht1 Ht2 L1 L2 Hlt.
    pose proof (sorted_nth_count_le t1 Ht1 i L1) as A.
    pose proof (sorted_nth_count_lt t2 Ht2 i L2) as B.
    pose proof (count_le_below_lt _ _ t2 Hlt) as C.
    rewrite (count_le_perm _ _ _ Hpt) in A. lia. }
  apply Qle_antisym; apply Qnot_lt_le.
  - apply Hno; auto. now symmetry.
  - apply Hno; auto.
Qed.

Lemma middle_of_sorted_agree s1 s2 :
  Permutation s1 s2 -> StronglySorted Qle s1 -> StronglySorted Qle s2 ->
  s1 <> [] -> (middle_of_sorted s1 == middle_of_sorted s2)%Q.
Proof.
  intros Hp H1 H2 Hne. unfold middle_of_sorted.
  rewrite <- (Permutation_length Hp).
  assert (Hn : 0 < length s1) by (destruct s1; [congruence | simpl; lia]).
  pose proof (sorted_arrangements_agree s1 s2 Hp H1 H2) as Hnth.
  assert (Hhalf : length s1 / 2 < length s1) by (apply Nat.div_lt; lia).
  destruct (Nat.odd (length s1)).
  - now apply Hnth.
  - rewrite (Hnth (length s1 / 2 - 1)), (Hnth (length s1 / 2)) by lia.
    reflexivity.
Qed.

Lemma index_in_range {A : Type} (l : list A) (i : nat) (d : A) :
  i < length l -> index l (Z.of_nat i) = Ok (nth i l d).
Proof.
  intros Hi. unfold index.
  assert ((Z.of_nat i <? 0)%Z = false) as -> by (apply Z.ltb_ge; lia).
  assert (((0 <=? Z.of_nat i) && (Z.of_nat i <? Z.of_nat (length l)))%Z = true) as ->.
  { apply andb_true_iff. split; [apply Z.leb_le | apply Z.ltb_lt]; lia. }
  rewrite Nat2Z.id.
  destruct (nth_error l i) as [x|] eqn:E.
  - now rewrite (nth_error_nth _ _ d E).
  - apply nth_error_None in E. lia.
Qed.

Lemma odd_of_nat n : (Z.of_nat n mod 2 =? 1)%Z = Nat.odd n.
Proof.
  destruct (Nat.odd n) eqn:E.
  - apply Nat.odd_spec in E as [k ->]. apply Z.eqb_eq.
    Z.div_mod_to_equations. lia.
  - assert (Hev : Nat.even n = true) by (now rewrite <- Nat.negb_odd, E).
    apply Nat.even_spec in Hev as [k ->]. apply Z.eqb_neq.
    Z.div_mod_to_equations. lia.
Qed.

(** [calc_median] returns the middle of the list it sorted. *)
Lemma calc_median_sorted l :
  l <> [] -> calc_median l = Ok (middle_of_sorted (sorted l)).
Proof.
  intros Hne. unfold calc_median, middle_of_sorted, len.
  set (s := sorted l).
  assert (Hn : 0 < length s).
  { unfold s. rewrite (Permutation_length (sorted_perm l)).
    destruct l; [congruence | simpl; lia]. }
  rewrite odd_of_nat.
  assert (Hdiv : (Z.of_nat (length s) / 2)%Z = Z.of_nat (length s / 2))
    by now rewrite Nat2Z.inj_div.
  rewrite Hdiv.
  assert (Hhalf : length s / 2 < length s) by (apply Nat.div_lt; lia).
  destruct (Nat.odd (length s)) eqn:E.
  - now apply index_in_range.
  - assert (Hpos : 1 <= length s / 2).
    { destruct (length s) as [|[|n]] eqn:L; [lia|discriminate E|].
      apply Nat.div_le_lower_bound; lia. }
    replace (Z.of_nat (length s / 2) - 1)%Z with (Z.of_nat (length s / 2 - 1))
      by lia.
    rewrite (index_in_range s (length s / 2 - 1) 0%Q) by lia. cbn [bind].
    rewrite (index_in_range s (length s / 2) 0%Q) by lia. cbn [bind].
    reflexivity.
Qed.

(** C2. On a list that is not empty, [calc_median] returns the statistical
    median: the middle item of the sorted list when the length is odd, the
    mean of the two middle items when it is even. *)
Theorem calc_median_is_median :
  forall l : list Q,
    l <> [] -> exists m, calc_median l = Ok m /\ is_median l m.
Proof.
  intros l Hne. exists (middle_of_sorted (sorted l)).
  split; [now apply calc_median_sorted|].
  intros s Hp Hs. apply middle_of_sorted_agree.
  - rewrite Hp. apply sorted_perm.
  - apply sorted_sorted.
  - exact Hs.
  - intros E. apply Hne. apply Permutation_nil.
    rewrite <- E. apply sorted_perm.
Qed.

(** The examples of C2: the median of 1..5 is 3, that of 1, 2 is 1.5. *)
Lemma calc_median_is_median_witness :
  (exists m, calc_median [1; 2; 3; 4; 5]%Q = Ok m /\ is_median [1; 2; 3; 4; 5]%Q m) /\
  (exists m, calc_median [1; 2]%Q = Ok m /\ is_median [1; 2]%Q m) /\
  calc_median [1; 2; 3; 4; 5]%Q = Ok 3%Q /\
  calc_median [1; 2]%Q = Ok (3 # 2)%Q.
Proof.
  split; [apply (calc_median_is_median [1; 2; 3; 4; 5]%Q); discriminate|].
  split; [apply (calc_median_is_median [1; 2]%Q); discriminate|].
  split; reflexivity.
Defined.

(** ** The ranker *)

Lemma insert_by_time_sum_perm r l : Permutation (insert_by_time_sum r l) (r :: l).
Proof.
  induction l as [|r' l IH]; simpl; [reflexivity|].
  destruct (Qle_bool (time_sum r') (time_sum r)); [reflexivity|].
  rewrite IH. apply perm_swap.
Qed.

Lemma insert_by_time_sum_sorted r l :
  sorted_by_time_sum_desc l -> sorted_by_time_sum_desc (insert_by_time_sum r l).
Proof.
  unfold sorted_by_time_sum_desc.
  induction 1 as [|r' l Hs IH Hr']; simpl.
  - repeat constructor.
  - destruct (Qle_bool (time_sum r') (time_sum r)) eqn:E.
    + apply Qle_bool_iff in E. constructor; [now constructor|].
      constructor; [exact E|].
      eapply Forall_impl; [|exact Hr']. intros z Hz. simpl in Hz.
      now apply Qle_trans with (time_sum r').
    + apply Qle_bool_false in E. constructor; [exact IH|].
      rewrite (insert_by_time_sum_perm r l).
      constructor; [now apply Qlt_le_weak | exact Hr'].
Qed.

(** Insertion puts a row before the rows of the same [time_sum]. *)
Lemma insert_by_time_sum_ties v r l :
  with_time_sum v (insert_by_time_sum r l) = with_time_sum v (r :: l).
Proof.
  unfold with_time_sum. induction l as [|r' l IH]; simpl; [reflexivity|].
  destruct (Qle_bool (time_sum r') (time_sum r)) eqn:E; [reflexivity|].
  simpl. rewrite IH. simpl.
  destruct (Qeq_bool (time_sum r) v) eqn:Er;
    destruct (Qeq_bool (time_sum r') v) eqn:Er'; try reflexivity.
  exfalso. apply Qeq_bool_iff in Er, Er'. apply Qle_bool_false in E.
  assert (H : (time_sum r' == time_sum r)%Q) by now rewrite Er, Er'.
  rewrite H in E. exact (Qlt_irrefl _ E).
Qed.

Lemma sort_requests_by_time_sum_perm rows :
  Permutation (sort_requests_by_time_sum rows) rows.
Proof.
  induction rows as [|r rows IH]; simpl; [constructor|].
  rewrite insert_by_time_sum_perm. now constructor.
Qed.

Lemma sort_requests_by_time_sum_sorted rows :
  sorted_by_time_sum_desc (sort_requests_by_time_sum rows).
Proof.
  induction rows as [|r rows IH]; simpl;
    [constructor | now apply insert_by_time_sum_sorted].
Qed.

Lemma sort_requests_by_time_sum_ties v rows :
  with_time_sum v (sort_requests_by_time_sum rows) = with_time_sum v rows.
Proof.
  induction rows as [|r rows IH]; simpl; [reflexivity|].
  rewrite insert_by_time_sum_ties. unfold with_time_sum in *. simpl.
  now rewrite IH.
Qed.

(** C5. For a report size that is not negative, the rows handed to the
    report are the first [REPORT_SIZE] rows of the input sorted by
    descending [time_sum], rows of equal [time_sum] in their input order;
    they are all the rows when there are no more than [REPORT_SIZE]. *)
Theorem ranker_sorts_stably_and_truncates :
  forall (rows : list UrlStats) (report_size : Z),
    (0 <= report_size)%Z ->
    Permutation (sort_requests_by_time_sum rows) rows /\
    sorted_by_time_sum_desc (sort_requests_by_time_sum rows) /\
    (forall v, with_time_sum v (sort_requests_by_time_sum rows)
               = with_time_sum v rows) /\
    slice_to_value (sort_requests_by_time_sum rows) (JInt report_size)
    = Ok (firstn (Z.to_nat report_size) (sort_requests_by_time_sum rows)) /\
    ((len rows <= report_size)%Z ->
     slice_to_value (sort_requests_by_time_sum rows) (JInt report_size)
     = Ok (sort_requests_by_time_sum rows)).
Proof.
  intros rows n Hn.
  assert (Hslice : slice_to_value (sort_requests_by_time_sum rows) (JInt n)
                   = Ok (firstn (Z.to_nat n) (sort_requests_by_time_sum rows))).
  { simpl. unfold slice_to.
    assert ((0 <=? n)%Z = true) as -> by now apply Z.leb_le.
    reflexivity. }
  split; [apply sort_requests_by_time_sum_perm|].
  split; [apply sort_requests_by_time_sum_sorted|].
  split; [intros v; apply sort_requests_by_time_sum_ties|].
  split; [exact Hslice|].
  intros Hlen. rewrite Hslice. f_equal. apply firstn_all2.
  rewrite (Permutation_length (sort_requests_by_time_sum_perm rows)).
  unfold len in Hlen. lia.
Qed.

(** The example of the specification: the top two of five rows, the tie
    between [/b] and [/d] in input order. *)
Lemma ranker_sorts_stably_and_truncates_witness :
  (Permutation (sort_requests_by_time_sum five_rows) five_rows /\
   sorted_by_time_sum_desc (sort_requests_by_time_sum five_rows) /\
   (forall v, with_time_sum v (sort_requests_by_time_sum five_rows)
              = with_time_sum v five_rows) /\
   slice_to_value (sort_requests_by_time_sum five_rows) (JInt 2)
   = Ok (firstn (Z.to_nat 2) (sort_requests_by_time_sum five_rows)) /\
   ((len five_rows <= 2)%Z ->
    slice_to_value (sort_requests_by_time_sum five_rows) (JInt 2)
    = Ok (sort_requests_by_time_sum five_rows))) /\
  slice_to_value (sort_requests_by_time_sum five_rows) (JInt 2)
  = Ok [sample_row "/b" 3; sample_row "/d" 3].
Proof.
  split; [|reflexivity].
  apply (ranker_sorts_stably_and_truncates five_rows 2). lia.
Defined.

(** ** Rounding *)

Lemma round_half_even_comp x y :
  (x == y)%Q -> round_half_even x = round_half_even y.
Proof.
  intros H. unfold round_half_even. rewrite (Qfloor_comp _ _ H).
  assert (E : (x - inject_Z (Qfloor y) ?= 1 # 2)%Q
              = (y - inject_Z (Qfloor y) ?= 1 # 2)%Q).
  { apply Qcompare_comp; [|reflexivity]. now rewrite H. }
  now rewrite E.
Qed.

Lemma round_comp x y n : (x == y)%Q -> round x n = round y n.
Proof.
  intros H. unfold round.
  now rewrite (round_half_even_comp (x * _)%Q (y * _)%Q) by now rewrite H.
Qed.

Lemma round_half_even_floor q :
  (Qfloor q <= round_half_even q <= Qfloor q + 1)%Z.
Proof.
  unfold round_half_even.
  destruct (q - inject_Z (Qfloor q) ?= 1 # 2)%Q; [destruct (Z.even _)| |]; lia.
Qed.

Lemma round_half_even_error q :
  (Qabs (inject_Z (round_half_even q) - q) <= 1 # 2)%Q.
Proof.
  pose proof (Qfloor_le q) as Hlo. pose proof (Qlt_floor q) as Hhi.
  rewrite inject_Z_plus in Hhi. change (inject_Z 1) with 1%Q in Hhi.
  apply Qabs_case; intros _; unfold round_half_even;
    destruct (q - inject_Z (Qfloor q) ?= 1 # 2)%Q eqn:E;
    [apply Qeq_alt in E|apply Qlt_alt in E|apply Qgt_alt in E
    |apply Qeq_alt in E|apply Qlt_alt in E|apply Qgt_alt in E];
    try destruct (Z.even (Qfloor q));
    rewrite ?inject_Z_plus; change (inject_Z 1) with 1%Q; lra.
Qed.

Lemma round_half_even_lower a q :
  (inject_Z a <= q)%Q -> (a <= round_half_even q)%Z.
Proof.
  intros H. apply Qfloor_resp_le in H. rewrite Qfloor_Z in H.
  pose proof (round_half_even_floor q). lia.
Qed.

Lemma round_half_even_upper b q :
  (q <= inject_Z b)%Q -> (round_half_even q <= b)%Z.
Proof.
  intros H. pose proof (Qfloor_resp_le _ _ H) as Hf. rewrite Qfloor_Z in Hf.
  pose proof (round_half_even_floor q) as Hr.
  destruct (Z.eq_dec (Qfloor q) b) as [E|E]; [|lia].
  unfold round_half_even.
  assert (Hlt : (q - inject_Z (Qfloor q) < 1 # 2)%Q).
  { rewrite E. lra. }
  destruct (q - inject_Z (Qfloor q) ?= 1 # 2)%Q eqn:C; [|lia|].
  - apply Qeq_alt in C. lra.
  - apply Qgt_alt in C. lra.
Qed.

(** [round(x, 3)] as a quotient. *)
Lemma round_3 x :
  (round x 3 == inject_Z (round_half_even (x * 1000)) / 1000)%Q.
Proof.
  unfold round. change (Z.to_pos (10 ^ Z.of_nat 3)) with 1000%positive.
  rewrite Qred_correct, Qmake_Qdiv. reflexivity.
Qed.

(** Rounding to three digits moves a number by at most half a thousandth. *)
Lemma round_3_error x : (Qabs (round x 3 - x) <= 1 # 2000)%Q.
Proof.
  rewrite round_3.
  pose proof (round_half_even_error (x * 1000)) as H.
  revert H. set (z := inject_Z (round_half_even (x * 1000))).
  intros H. apply Qabs_Qle_condition in H as [H1 H2].
  apply Qabs_Qle_condition.
  unfold Qdiv. change (/ 1000)%Q with (1 # 1000)%Q. split; lra.
Qed.

(** Rounding to three digits keeps a number between two integers. *)
Lemma round_3_bounds a b x :
  (inject_Z a <= x <= inject_Z b)%Q ->
  (inject_Z a <= round x 3 <= inject_Z b)%Q.
Proof.
  intros [Ha Hb]. rewrite round_3.
  assert (H1 : (inject_Z (a * 1000) <= x * 1000)%Q).
  { rewrite inject_Z_mult. change (inject_Z 1000) with 1000%Q. lra. }
  assert (H2 : (x * 1000 <= inject_Z (b * 1000))%Q).
  { rewrite inject_Z_mult. change (inject_Z 1000) with 1000%Q. lra. }
  apply round_half_even_lower in H1. apply round_half_even_upper in H2.
  set (z := round_half_even (x * 1000)) in *.
  unfold Qdiv. change (/ 1000)%Q with (1 # 1000)%Q.
  assert (H1' : (inject_Z (a * 1000) <= inject_Z z)%Q) by now rewrite <- Zle_Qle.
  assert (H2' : (inject_Z z <= inject_Z (b * 1000))%Q) by now rewrite <- Zle_Qle.
  rewrite inject_Z_mult in H1', H2'. change (inject_Z 1000) with 1000%Q in *.
  split; lra.
Qed.

(** ** The statistics *)

Lemma fold_left_Qplus l : forall a, (fold_left Qplus l a == a + qsum l)%Q.
Proof.
  induction l as [|x l IH]; intros a; simpl.
  - ring.
  - rewrite IH. ring.
Qed.

Lemma sum_qsum l : (sum l == qsum l)%Q.
Proof. unfold sum. rewrite fold_left_Qplus. ring. Qed.

Lemma qsum_nonneg l : Forall (fun x => (0 <= x)%Q) l -> (0 <= qsum l)%Q.
Proof.
  induction 1 as [|x l Hx _ IH]; simpl; [apply Qle_refl|].
  change 0%Q with (0 + 0)%Q. now apply Qplus_le_compat.
Qed.

Lemma sum_nonneg l : Forall (fun x => (0 <= x)%Q) l -> (0 <= sum l)%Q.
Proof. intros H. rewrite sum_qsum. now apply qsum_nonneg. Qed.

(** The first loop of [analyze_requests] computes the two totals. *)
Lemma totals_spec tm :
  fst (totals tm) = total_count tm /\ (snd (totals tm) == total_time tm)%Q.
Proof.
  unfold totals, total_count, total_time.
  assert (H : forall c t,
             fst (fold_left (fun acc item =>
                  ((fst acc + len (snd item))%Z, (snd acc + sum (snd item))%Q))
                  tm (c, t))
             = (c + fold_right Z.add 0 (map (fun item => len (snd item)) tm))%Z /\
             (snd (fold_left (fun acc item =>
                  ((fst acc + len (snd item))%Z, (snd acc + sum (snd item))%Q))
                  tm (c, t))
              == t + qsum (map (fun item => sum (snd item)) tm))%Q).
  { induction tm as [|item tm IH]; intros c t; simpl.
    - split; [lia | ring].
    - destruct (IH (c + len (snd item))%Z (t + sum (snd item))%Q) as [H1 H2].
      rewrite H1, H2. split; [lia | ring]. }
  destruct (H 0%Z 0%Q) as [H1 H2]. rewrite H1, H2. split; [lia | ring].
Qed.

Lemma truediv_ok a b : ~ (b == 0)%Q -> truediv a b = Ok (a / b)%Q.
Proof.
  intros H. unfold truediv. destruct (Qeq_bool b 0) eqn:E; [|reflexivity].
  apply Qeq_bool_iff in E. contradiction.
Qed.


Lemma inject_Z_nonzero z : z <> 0%Z -> ~ (inject_Z z == 0)%Q.
Proof. intros H E. apply H. unfold Qeq in E. simpl in E. lia. Qed.

Lemma len_nonneg {A : Type} (l : list A) : (0 <= len l)%Z.
Proof. unfold len. lia. Qed.

Lemma total_count_nonneg tm : (0 <= total_count tm)%Z.
Proof.
  unfold total_count. induction tm as [|item tm IH]; simpl; [lia|].
  pose proof (len_nonneg (snd item)). lia.
Qed.

Lemma total_count_In tm item :
  In item tm -> (len (snd item) <= total_count tm)%Z.
Proof.
  unfold total_count. induction tm as [|item' tm IH]; simpl; [tauto|].
  pose proof (total_count_nonneg tm) as Hn. unfold total_count in Hn.
  pose proof (len_nonneg (snd item')) as Hl.
  intros [->|H]; [lia|]. apply IH in H. lia.
Qed.

Lemma total_time_nonneg tm : well_formed tm -> (0 <= total_time tm)%Q.
Proof.
  unfold total_time. induction 1 as [|item tm [_ Hx] _ IH]; simpl;
    [apply Qle_refl|].
  apply sum_nonneg in Hx. lra.
Qed.

Lemma total_time_In tm item :
  well_formed tm -> In item tm -> (sum (snd item) <= total_time tm)%Q.
Proof.
  unfold total_time. induction 1 as [|item' tm [_ Hx] Hwf IH]; simpl; [tauto|].
  pose proof (total_time_nonneg tm Hwf) as Hn. unfold total_time in Hn.
  apply sum_nonneg in Hx.
  intros [->|H]; [lra|]. apply IH in H. lra.
Qed.

(** The second loop: one row per item, each field as [row_for] says. *)
Lemma analyze_items_rows tm tc tt : forall items,
  tc = total_count tm -> (tt == total_time tm)%Q ->
  tc <> 0%Z -> ~ (tt == 0)%Q ->
  Forall (fun item => snd item <> []) items ->
  exists rows, analyze_items tc tt items = Ok rows /\
               Forall2 (row_for tm) items rows.
Proof.
  intros items Htc Htt Hc Ht. induction 1 as [|[u times] items Hne _ IH].
  - exists []. split; [reflexivity | constructor].
  - destruct IH as (rows & Hrows & Hall). simpl in Hne.
    simpl. unfold analyze_url.
    destruct times as [|x times]; [congruence|].
    set (ts := x :: times) in *. simpl max. cbn [bind].
    rewrite truediv_ok by now apply inject_Z_nonzero.
    cbn [bind]. rewrite truediv_ok by exact Ht. cbn [bind].
    rewrite truediv_ok
      by (apply inject_Z_nonzero; unfold ts, len; simpl length; lia).
    cbn [bind]. rewrite (calc_median_sorted ts) by discriminate.
    cbn [bind]. rewrite Hrows. cbn [bind].
    eexists. split; [reflexivity|]. constructor; [|exact Hall].
    unfold row_for. cbn [fst snd url count count_perc time_sum time_perc
                         time_avg time_max time_med].
    repeat split.
    + eexists. split; [reflexivity|]. reflexivity.
    + exists (middle_of_sorted (sorted ts)).
      split; [now apply calc_median_sorted | reflexivity].
    + now rewrite Htc.
    + apply round_comp. now rewrite Htt.
Qed.

Lemma well_formed_nonempty tm :
  well_formed tm -> Forall (fun item => snd item <> []) tm.
Proof. apply Forall_impl. now intros item [H _]. Qed.

Lemma total_count_pos tm : tm <> [] -> well_formed tm -> (0 < total_count tm)%Z.
Proof.
  intros Hne Hwf. destruct tm as [|[u times] tm]; [congruence|].
  inversion Hwf as [|? ? [Hx _] Hrest]; subst. simpl in Hx.
  pose proof (total_count_nonneg tm) as Hn.
  unfold total_count in *. simpl.
  pose proof (len_pos times Hx). lia.
Qed.

(** The statistics of a sample set whose total time is not zero. *)
Lemma analyze_requests_rows tm :
  tm <> [] -> well_formed tm -> ~ (total_time tm == 0)%Q ->
  exists rows, analyze_requests tm = Ok rows /\ Forall2 (row_for tm) tm rows.
Proof.
  intros Hne Hwf Ht. unfold analyze_requests.
  destruct (totals_spec tm) as [H1 H2].
  destruct (totals tm) as [tc tt]. simpl in H1, H2.
  apply analyze_items_rows.
  - exact H1.
  - exact H2.
  - rewrite H1. pose proof (total_count_pos tm Hne Hwf). lia.
  - now rewrite H2.
  - now apply well_formed_nonempty.
Qed.


(** C1 fails on the code: a log whose requests all took 0.000 seconds gives
    a sample set, not empty, on which the statistics raise
    ZeroDivisionError instead of returning a row per URL. *)
Theorem analyze_requests_zero_time_raises :
  collect_times_for_urls (parse_lines [log_line "GET / HTTP/1.1" "0.000"])
  = Ok [("/", [0%Q])] /\
  analyze_requests [("/", [0%Q])] = Raise ZeroDivisionError /\
  main DEFAULT_CONFIG [log_line "GET / HTTP/1.1" "0.000"]
  = Raise ZeroDivisionError.
Proof. repeat split; vm_compute; reflexivity. Qed.

(** ** The shares *)

Lemma qsum_round_error xs :
  (Qabs (qsum (map (fun x => round x 3) xs) - qsum xs)
   <= inject_Z (len xs) * (1 # 2000))%Q.
Proof.
  induction xs as [|x xs IH].
  - cbv. discriminate.
  - replace (len (x :: xs)) with (1 + len xs)%Z
      by (unfold len; simpl length; lia).
    rewrite inject_Z_plus. change (inject_Z 1) with 1%Q.
    unfold qsum in *. cbn [map fold_right].
    pose proof (round_3_error x) as Hx.
    apply Qabs_Qle_condition in Hx as [Hx1 Hx2].
    apply Qabs_Qle_condition in IH as [IH1 IH2].
    apply Qabs_Qle_condition. split; lra.
Qed.

Lemma qsum_shares (f : string * list Q -> Q) t tm :
  (qsum (map (fun item => f item / t) tm) == qsum (map f tm) / t)%Q.
Proof.
  unfold qsum. induction tm as [|item tm IH]; cbn [map fold_right].
  - unfold Qdiv. ring.
  - rewrite IH. unfold Qdiv. ring.
Qed.

Lemma share_bounds a t :
  (0 <= a)%Q -> (a <= t)%Q -> (0 < t)%Q ->
  (inject_Z 0 <= 100 * a / t <= inject_Z 100)%Q.
Proof.
  intros Ha Hat Ht. change (inject_Z 0) with 0%Q.
  change (inject_Z 100) with 100%Q. split.
  - apply Qle_shift_div_l; [exact Ht | lra].
  - apply Qle_shift_div_r; [exact Ht | lra].
Qed.

Lemma total_count_qsum tm :
  (inject_Z (100 * total_count tm)
   == qsum (map (fun item => inject_Z (100 * len (snd item))) tm))%Q.
Proof.
  unfold total_count, qsum.
  induction tm as [|item tm IH]; cbn [map fold_right]; [reflexivity|].
  rewrite <- IH. rewrite !inject_Z_mult, inject_Z_plus. ring.
Qed.

Lemma total_time_qsum tm :
  (100 * total_time tm
   == qsum (map (fun item => 100 * sum (snd item)) tm))%Q.
Proof.
  unfold total_time, qsum.
  induction tm as [|item tm IH]; cbn [map fold_right]; [ring|].
  rewrite <- IH. ring.
Qed.

(** The shares of the rows, as roundings of the exact shares. *)
Lemma rows_count_perc tm items rows :
  Forall2 (row_for tm) items rows ->
  map count_perc rows
  = map (fun x => round x 3)
        (map (fun item => inject_Z (100 * len (snd item))
                          / inject_Z (total_count tm))%Q items).
Proof.
  induction 1 as [|item r items rows Hr _ IH]; simpl; [reflexivity|].
  destruct Hr as (_ & _ & _ & _ & _ & _ & Hc & _). now rewrite Hc, IH.
Qed.

Lemma rows_time_perc tm items rows :
  Forall2 (row_for tm) items rows ->
  map time_perc rows
  = map (fun x => round x 3)
        (map (fun item => 100 * sum (snd item) / total_time tm)%Q items).
Proof.
  induction 1 as [|item r items rows Hr _ IH]; simpl; [reflexivity|].
  destruct Hr as (_ & _ & _ & _ & _ & _ & _ & Ht). now rewrite Ht, IH.
Qed.

(** C6, as the code has it.  On a sample set that is not empty, with a
    sample for every URL, no negative sample and a total time that is not
    zero, there is a row per URL, every share is between 0 and 100, and
    each of the two sums of shares is within half a thousandth per row of
    100. *)
Theorem shares_within_rounding :
  forall tm : times_map,
    tm <> [] -> well_formed tm -> ~ (total_time tm == 0)%Q ->
    exists rows,
      analyze_requests tm = Ok rows /\
      length rows = length tm /\
      Forall (fun r => (0 <= count_perc r <= 100)%Q /\
                       (0 <= time_perc r <= 100)%Q) rows /\
      (Qabs (sum_of count_perc rows - 100)
       <= inject_Z (len rows) * (1 # 2000))%Q /\
      (Qabs (sum_of time_perc rows - 100)
       <= inject_Z (len rows) * (1 # 2000))%Q.
Proof.
  intros tm Hne Hwf Ht.
  destruct (analyze_requests_rows tm Hne Hwf Ht) as (rows & Hrows & Hall).
  pose proof (total_count_pos tm Hne Hwf) as Hcpos.
  pose proof (total_time_nonneg tm Hwf) as Htnn.
  assert (Htpos : (0 < total_time tm)%Q).
  { apply Qle_lteq in Htnn as [H|H]; [exact H|]. exfalso. apply Ht. now symmetry. }
  assert (Hcq : (0 < inject_Z (total_count tm))%Q).
  { change 0%Q with (inject_Z 0). now rewrite <- Zlt_Qlt. }
  assert (Hlen : length rows = length tm)
    by (symmetry; exact (Forall2_length Hall)).
  exists rows. split; [exact Hrows|]. split; [exact Hlen|]. split; [|split].
  - assert (Hgen : forall items rows',
               Forall2 (row_for tm) items rows' ->
               (forall item, In item items -> In item tm) ->
               Forall (fun r => (0 <= count_perc r <= 100)%Q /\
                                (0 <= time_perc r <= 100)%Q) rows');
      [|now apply (Hgen tm rows Hall)].
    induction 1 as [|item r items rows' Hr _ IH]; intros Hin; constructor.
    + destruct Hr as (_ & _ & _ & _ & _ & _ & Hc & Htp).
      assert (Hitem : In item tm) by (apply Hin; now left).
      rewrite Hc, Htp. split.
      * apply (round_3_bounds 0 100). rewrite inject_Z_mult.
        change (inject_Z 100) with 100%Q.
        apply share_bounds; [| |exact Hcq].
        -- change 0%Q with (inject_Z 0). rewrite <- Zle_Qle. apply len_nonneg.
        -- rewrite <- Zle_Qle. now apply total_count_In.
      * apply (round_3_bounds 0 100).
        apply share_bounds; [| |exact Htpos].
        -- apply sum_nonneg. pose proof Hwf as Hwf'.
           unfold well_formed in Hwf'. rewrite Forall_forall in Hwf'.
           now destruct (Hwf' item Hitem).
        -- now apply total_time_In.
    + apply IH. intros item' H. apply Hin. now right.
  - unfold sum_of. rewrite (rows_count_perc tm tm rows Hall).
    pose proof (qsum_round_error
                  (map (fun item => inject_Z (100 * len (snd item))
                                    / inject_Z (total_count tm))%Q tm)) as E.
    replace (len rows) with (len (map (fun item : string * list Q =>
               (inject_Z (100 * len (snd item))
                / inject_Z (total_count tm))%Q) tm))
      by (unfold len; now rewrite length_map, Hlen).
    assert (Hsum : (qsum (map (fun item : string * list Q =>
                      inject_Z (100 * len (snd item))
                      / inject_Z (total_count tm)) tm) == 100)%Q).
    { rewrite (qsum_shares (fun item => inject_Z (100 * len (snd item)))).
      rewrite <- total_count_qsum, inject_Z_mult.
      change (inject_Z 100) with 100%Q. field. lra. }
    rewrite Hsum in E. exact E.
  - unfold sum_of. rewrite (rows_time_perc tm tm rows Hall).
    pose proof (qsum_round_error
                  (map (fun item => 100 * sum (snd item) / total_time tm)%Q tm))
      as E.
    replace (len rows) with (len (map (fun item : string * list Q =>
               (100 * sum (snd item) / total_time tm)%Q) tm))
      by (unfold len; now rewrite length_map, Hlen).
    assert (Hsum : (qsum (map (fun item : string * list Q =>
                      100 * sum (snd item) / total_time tm) tm) == 100)%Q).
    { rewrite (qsum_shares (fun item => 100 * sum (snd item))%Q).
      rewrite <- total_time_qsum. field. lra. }
    rewrite Hsum in E. exact E.
Qed.

Lemma shares_within_rounding_witness :
  exists rows,
    analyze_requests three_urls = Ok rows /\
    length rows = length three_urls /\
    Forall (fun r => (0 <= count_perc r <= 100)%Q /\
                     (0 <= time_perc r <= 100)%Q) rows /\
    (Qabs (sum_of count_perc rows - 100)
     <= inject_Z (len rows) * (1 # 2000))%Q /\
    (Qabs (sum_of time_perc rows - 100)
     <= inject_Z (len rows) * (1 # 2000))%Q.
Proof.
  apply (shares_within_rounding three_urls).
  - discriminate.
  - unfold three_urls, well_formed.
    repeat (constructor; [split; [discriminate|repeat constructor; discriminate]|]).
    constructor.
  - vm_compute. discriminate.
Defined.

(** C6 fails as stated: thirty URLs with one request of one second each
    form a sample set as the aggregator builds them, every share is 3.333,
    and each of the two sums of shares is 99.99, a hundredth below 100. *)
Lemma shares_sum_to_less_than_100 :
  thirty_urls <> [] /\ well_formed thirty_urls /\
  exists rows,
    analyze_requests thirty_urls = Ok rows /\
    (sum_of count_perc rows == 9999 # 100)%Q /\
    (sum_of time_perc rows == 9999 # 100)%Q /\
    ~ (Qabs (sum_of count_perc rows - 100) <= 1 # 1000)%Q /\
    ~ (Qabs (sum_of time_perc rows - 100) <= 1 # 1000)%Q.
Proof.
  split; [discriminate|]. split.
  - unfold thirty_urls, well_formed. apply Forall_map, Forall_forall.
    intros i _. simpl. split; [discriminate|]. repeat constructor. discriminate.
  - eexists. split; [vm_compute; reflexivity|].
    repeat split; try (vm_compute; reflexivity);
      vm_compute; intros H; apply H; reflexivity.
Qed.

(** ** The tests of the repository, on the model *)

Example test_median : calc_median [1; 2; 3; 4; 5]%Q = Ok 3%Q.
Proof. vm_compute. reflexivity. Qed.

Example test_lines_parsing :
  hd_error (yields (parse_lines test_log_lines)) = Some test_expected_record /\
  length (yields (parse_lines test_log_lines)) = 3 /\
  ending (parse_lines test_log_lines) = Ok tt.
Proof. repeat split; vm_compute; reflexivity. Qed.

(** The test gives the times as the integer 1; the model reads them from
    the numeral. *)
Example test_collect_times :
  let request_line := [("request_url", "/api/v1/test"); ("request_time", "1")] in
  collect_times_for_urls
    (Yield request_line (Yield request_line (Yield request_line StopIteration)))
  = Ok [("/api/v1/test", [1; 1; 1]%Q)].
Proof. vm_compute. reflexivity. Qed.

Example test_requests_analyzing :
  analyze_requests [("/api/v1/test", [1; 1; 1]%Q)]
  = Ok [ {| url := "/api/v1/test"; count := 3; count_perc := 100;
            time_sum := 3; time_perc := 100; time_avg := 1; time_max := 1;
            time_med := 1 |} ].
Proof. vm_compute. reflexivity. Qed.

Example test_too_much_missed_lines : is_too_many_missed_lines 5 10 50 = Ok true.
Proof. vm_compute. reflexivity. Qed.

Example test_small_missed_lines : is_too_many_missed_lines 1 10 50 = Ok false.
Proof. vm_compute. reflexivity. Qed.

(** * Further properties of the code *)

(** ** The aggregator *)

Lemma lookup_append_time u v x m :
  lookup u (append_time v x m)
  = if String.eqb v u
    then Some (match lookup u m with Some ts => ts | None => [] end ++ [x])
    else lookup u m.
Proof.
  induction m as [|[k ts] m IH]; simpl.
  - now destruct (String.eqb v u).
  - destruct (String.eqb k v) eqn:Ekv; simpl.
    + apply String.eqb_eq in Ekv. subst k.
      now destruct (String.eqb v u).
    + destruct (String.eqb k u) eqn:Eku.
      * apply String.eqb_eq in Eku. subst k.
        rewrite String.eqb_sym in Ekv. now rewrite Ekv.
      * exact IH.
Qed.

Lemma keys_append_time v x m :
  map fst (append_time v x m)
  = if mem v (map fst m) then map fst m else map fst m ++ [v].
Proof.
  unfold mem. induction m as [|[k ts] m IH]; simpl; [reflexivity|].
  rewrite (String.eqb_sym v k).
  destruct (String.eqb k v); simpl; [reflexivity|].
  rewrite IH. now destruct (existsb (String.eqb v) (map fst m)).
Qed.

Lemma total_count_append_time v x m :
  total_count (append_time v x m) = (total_count m + 1)%Z.
Proof.
  unfold total_count. induction m as [|[k ts] m IH]; simpl.
  - reflexivity.
  - destruct (String.eqb k v); simpl.
    + unfold len. rewrite length_app. simpl length. lia.
    + rewrite IH. lia.
Qed.

Lemma lookup_add_samples u : forall ps acc,
  lookup u (add_samples ps acc)
  = match lookup u acc, times_of u ps with
    | None, [] => None
    | o, ts => Some (match o with Some old => old | None => [] end ++ ts)
    end.
Proof.
  unfold add_samples, times_of.
  induction ps as [|[v x] ps IH]; intros acc; simpl.
  - destruct (lookup u acc); [now rewrite app_nil_r | reflexivity].
  - rewrite IH, lookup_append_time.
    destruct (String.eqb v u); simpl.
    + destruct (lookup u acc); now rewrite <- app_assoc.
    + reflexivity.
Qed.

Lemma filter_filter_implied {A : Type} (p q : A -> bool) l :
  (forall x, p x = true -> q x = true) -> filter p (filter q l) = filter p l.
Proof.
  intros H. induction l as [|x l IH]; simpl; [reflexivity|].
  destruct (q x) eqn:Eq; simpl.
  - now rewrite IH.
  - destruct (p x) eqn:Ep; [|exact IH]. apply H in Ep. congruence.
Qed.

Lemma filter_filter_and {A : Type} (p q : A -> bool) l :
  filter p (filter q l) = filter (fun x => q x && p x) l.
Proof.
  induction l as [|x l IH]; simpl; [reflexivity|].
  destruct (q x); simpl; [|exact IH]. destruct (p x); now rewrite IH.
Qed.

Lemma mem_app_one v u l : mem v (l ++ [u]) = mem v l || String.eqb v u.
Proof. unfold mem. rewrite existsb_app. simpl. now rewrite orb_false_r. Qed.

Lemma keys_add_samples : forall ps acc,
  map fst (add_samples ps acc)
  = map fst acc
    ++ filter (fun v => negb (mem v (map fst acc))) (first_seen (map fst ps)).
Proof.
  unfold add_samples.
  induction ps as [|[u x] ps IH]; intros acc; simpl.
  - now rewrite app_nil_r.
  - rewrite IH, keys_append_time.
    destruct (mem u (map fst acc)) eqn:E; simpl.
    + f_equal. symmetry. apply filter_filter_implied.
      intros v Hv. destruct (String.eqb v u) eqn:Evu; [|reflexivity].
      apply String.eqb_eq in Evu. subst v. now rewrite E in Hv.
    + rewrite <- app_assoc. simpl. do 2 f_equal.
      rewrite filter_filter_and. apply filter_ext.
      intros v. rewrite mem_app_one.
      now destruct (mem v (map fst acc)), (String.eqb v u).
Qed.

Lemma first_seen_NoDup us : NoDup (first_seen us).
Proof.
  induction us as [|u us IH]; simpl; constructor.
  - intros H. apply filter_In in H as [_ H].
    now rewrite String.eqb_refl in H.
  - now apply NoDup_filter.
Qed.

(** What the aggregator returns when it returns: its input ended normally,
    every record had a sample, and the map is the samples added in order. *)
Lemma collect_times_from_ok : forall (g : gen record) acc tm,
  collect_times_from g acc = Ok tm ->
  ending g = Ok tt /\
  length (samples (yields g)) = length (yields g) /\
  tm = add_samples (samples (yields g)) acc.
Proof.
  induction g as [r rest IH| |e]; intros acc tm H; simpl in H.
  - unfold getitem in H. simpl. unfold sample_of.
    destruct (lookup "request_url" r) as [u|]; [|discriminate].
    destruct (lookup "request_time" r) as [t|]; [|discriminate].
    simpl in H. destruct (float t) as [x|]; [|discriminate]. simpl in H.
    apply IH in H as (He & Hl & ->). simpl. auto.
  - injection H as <-. auto.
  - discriminate.
Qed.

(** The aggregator groups the times by URL: the keys are the URLs in the
    order they were first seen, each once; the list of a URL holds its
    times in the order of the records, and is never empty; every record
    contributes one sample. *)
Theorem collect_times_groups_by_url :
  forall (parsed_log : gen record) (tm : times_map),
    collect_times_for_urls parsed_log = Ok tm ->
    map fst tm = first_seen (map fst (samples (yields parsed_log))) /\
    NoDup (map fst tm) /\
    (forall u, lookup u tm
               = match times_of u (samples (yields parsed_log)) with
                 | [] => None
                 | ts => Some ts
                 end) /\
    total_count tm = len (yields parsed_log).
Proof.
  intros g tm H. unfold collect_times_for_urls in H.
  apply collect_times_from_ok in H as (_ & Hl & ->).
  assert (Hk : map fst (add_samples (samples (yields g)) [])
               = first_seen (map fst (samples (yields g)))).
  { rewrite keys_add_samples. simpl.
    generalize (first_seen (map fst (samples (yields g)))) as l.
    induction l as [|v l IH]; simpl; [reflexivity | now rewrite IH]. }
  split; [exact Hk|]. split; [rewrite Hk; apply first_seen_NoDup|]. split.
  - intros u. rewrite lookup_add_samples. simpl.
    now destruct (times_of u (samples (yields g))).
  - unfold len. rewrite <- Hl. clear Hl Hk.
    assert (G : forall ps acc,
               total_count (add_samples ps acc)
               = (total_count acc + Z.of_nat (length ps))%Z).
    { unfold add_samples. induction ps as [|p ps IH]; intros acc.
      - simpl. lia.
      - simpl fold_left. rewrite IH, total_count_append_time.
        simpl length. lia. }
    rewrite G. reflexivity.
Qed.

Lemma collect_times_groups_by_url_witness :
  map fst [("/a", [1 # 2; 5 # 4]); ("/b", [2])]%Q
  = first_seen (map fst (samples (yields three_records))) /\
  NoDup (map fst [("/a", [1 # 2; 5 # 4]); ("/b", [2])]%Q) /\
  (forall u, lookup u [("/a", [1 # 2; 5 # 4]); ("/b", [2])]%Q
             = match times_of u (samples (yields three_records)) with
               | [] => None
               | ts => Some ts
               end) /\
  total_count [("/a", [1 # 2; 5 # 4]); ("/b", [2])]%Q = len (yields three_records).
Proof.
  apply (collect_times_groups_by_url three_records).
  vm_compute. reflexivity.
Defined.




(** ** The records of the parser *)

Lemma groupdict_keys mo : map fst (groupdict mo) = map fst (m_spans mo).
Proof. unfold groupdict. rewrite map_map. reflexivity. Qed.

(** Every record of the parser has the fifteen fields of the grammar, in
    the order of the grammar. *)
Theorem matched_record_has_all_fields :
  forall (line : string) (groups : record),
    match_line line = Some groups -> map fst groups = log_fields.
Proof.
  intros line groups Hm.
  apply match_line_parse in Hm as (w & rest & m & _ & Hp & ->).
  rewrite groupdict_keys. simpl m_spans.
  apply parse_span_names in Hp.
  change (map fst (spans no_marks)) with (@nil string) in Hp.
  rewrite app_nil_r in Hp. rewrite map_rev, Hp, rev_involutive.
  reflexivity.
Qed.

Lemma matched_record_has_all_fields_witness :
  map fst test_expected_record = log_fields.
Proof.
  apply (matched_record_has_all_fields (hd "" test_log_lines)).
  vm_compute. reflexivity.
Defined.

Lemma digits_value_nonneg : forall ds acc,
  (0 <= acc)%Z -> (0 <= digits_value acc ds)%Z.
Proof.
  induction ds as [|d ds IH]; intros acc H; cbn [digits_value]; [exact H|].
  apply IH. unfold digit_value. lia.
Qed.

(** The text of [request_time] in a record of the parser. *)
Lemma match_line_request_time line groups :
  match_line line = Some groups ->
  exists d1 d2,
    lookup "request_time" groups
    = Some (string_of_list_ascii (d1 ++ "."%char :: d2)) /\
    forallb is_digit d1 = true /\ 1 <= length d1 /\
    forallb is_digit d2 = true /\ 1 <= length d2.
Proof.
  intros Hm.
  destruct (match_line_group line groups (firstn 70 log_pattern) "request_time"
              [plus Digit; lit "."; plus Digit] [star Space] Hm)
    as (w1 & wb & w2 & m & Hw & Hb & Hl).
  - reflexivity.
  - reflexivity.
  - simpl. tauto.
  - simpl in Hb.
    destruct Hb as (d1 & t1 & -> & Hd1 & L1 & p & t2 & -> & Hp & d2 & t3 & -> &
                    Hd2 & L2 & -> & _).
    apply Ascii.eqb_eq in Hp. subst p. rewrite app_nil_r in Hl.
    exists d1, d2. auto.
Qed.

Lemma float_decimal_nonneg d1 d2 :
  forallb is_digit d1 = true -> 1 <= length d1 ->
  forallb is_digit d2 = true -> 1 <= length d2 ->
  is_decimal (string_of_list_ascii (d1 ++ "."%char :: d2)) = true /\
  exists x, float (string_of_list_ascii (d1 ++ "."%char :: d2)) = Ok x /\
            (0 <= x)%Q.
Proof.
  intros H1 L1 H2 L2. unfold is_decimal, float.
  rewrite list_ascii_of_string_of_list_ascii, split_at_dot_decimal by exact H1.
  rewrite !all_digits_intro by assumption. split; [reflexivity|].
  simpl andb. cbv iota. eexists. split; [reflexivity|].
  rewrite Qred_correct. unfold Qle. cbn [Qnum Qden].
  pose proof (digits_value_nonneg (d1 ++ d2) 0 (Z.le_refl 0)). lia.
Qed.

(** In every record of the parser, [request_time] is a numeral of the form
    [\d+\.\d+], and [float] reads it as a number that is not negative. *)
Theorem matched_record_time_is_a_numeral :
  forall (line : string) (groups : record),
    match_line line = Some groups ->
    exists t x,
      lookup "request_time" groups = Some t /\
      is_decimal t = true /\ float t = Ok x /\ (0 <= x)%Q.
Proof.
  intros line groups Hm.
  destruct (match_line_request_time line groups Hm)
    as (d1 & d2 & Hl & H1 & L1 & H2 & L2).
  destruct (float_decimal_nonneg d1 d2 H1 L1 H2 L2) as (Hd & x & Hx & Hpos).
  eauto 6.
Qed.

Lemma matched_record_time_is_a_numeral_witness :
  exists t x,
    lookup "request_time" test_expected_record = Some t /\
    is_decimal t = true /\ float t = Ok x /\ (0 <= x)%Q.
Proof.
  apply (matched_record_time_is_a_numeral (hd "" test_log_lines)).
  vm_compute. reflexivity.
Defined.

Lemma length_string_of_list_ascii u :
  String.length (string_of_list_ascii u) = length u.
Proof. induction u as [|a u IH]; simpl; [reflexivity | now rewrite IH]. Qed.

(** The text that a matched line gives to a group that is one repetition
    of a class. *)
Lemma match_line_rep_group line groups n name g min c :
  match_line line = Some groups ->
  log_pattern
  = firstn n log_pattern ++ group name [Rep g min c] ++ skipn (n + 3) log_pattern ->
  ~ In name (closes (skipn (n + 3) log_pattern)) ->
  exists u, lookup name groups = Some (string_of_list_ascii u) /\
            forallb (cls_match c) u = true /\ min <= length u.
Proof.
  intros Hm Hpat Hn.
  destruct (match_line_group line groups _ name [Rep g min c] _ Hm Hpat)
    as (w1 & wb & w2 & m & _ & Hb & Hl); [reflexivity | exact Hn |].
  simpl in Hb. destruct Hb as (u & w' & -> & Hu & Hmin & -> & _).
  rewrite app_nil_r in Hl. eauto.
Qed.

Ltac field_at n :=
  eapply (match_line_rep_group _ _ n);
  [ eassumption
  | reflexivity
  | vm_compute; intros H; repeat (destruct H as [H|H]; [discriminate H|]);
    exact H ].

Ltac find_field :=
  first [ field_at 0 | field_at 4 | field_at 8 | field_at 13 | field_at 19
        | field_at 23 | field_at 27 | field_at 32 | field_at 36 | field_at 41
        | field_at 47 | field_at 53 | field_at 59 | field_at 65 ].

(** The formats of the other fields of a record of the parser: the address
    is a run of digits and dots and the status a run of digits, neither
    empty; the user, the real IP and the body size have no whitespace; the
    remaining fields have no line feed. *)
Theorem matched_record_field_formats :
  forall (line : string) (groups : record),
    match_line line = Some groups ->
    (exists v, lookup "remote_addr" groups = Some v /\
               only digit_or_dot v = true /\ 1 <= String.length v) /\
    (exists v, lookup "status" groups = Some v /\
               only is_digit v = true /\ 1 <= String.length v) /\
    Forall (fun name => exists v, lookup name groups = Some v /\
                                  only not_space v = true)
           ["remote_user"; "http_x_real_ip"; "body_bytes_sent"] /\
    Forall (fun name => exists v, lookup name groups = Some v /\
                                  has_newline v = false)
           ["time_local"; "request_method"; "request_url"; "request_protocol";
            "http_referer"; "http_user_agent"; "http_x_forwarded_for";
            "http_X_REQUEST_ID"; "http_X_RB_USER"].
Proof.
  intros line groups Hm.
  assert (Hrep : forall name c min,
             (exists u, lookup name groups = Some (string_of_list_ascii u) /\
                        forallb (cls_match c) u = true /\ min <= length u) ->
             exists v, lookup name groups = Some v /\
                       only (cls_match c) v = true /\ min <= String.length v).
  { intros name c min (u & Hl & Hu & Hmin).
    exists (string_of_list_ascii u). unfold only.
    now rewrite list_ascii_of_string_of_list_ascii, length_string_of_list_ascii. }
  assert (Hdot : forall name,
             (exists u, lookup name groups = Some (string_of_list_ascii u) /\
                        forallb (cls_match Dot) u = true /\ 0 <= length u) ->
             exists v, lookup name groups = Some v /\ has_newline v = false).
  { intros name (u & Hl & Hu & _). exists (string_of_list_ascii u).
    split; [exact Hl | now apply dot_word_has_no_newline]. }
  split; [|split; [|split]].
  - apply (Hrep "remote_addr" (Union Digit (Chr ".")) 1). find_field.
  - apply (Hrep "status" Digit 1). find_field.
  - repeat constructor;
      match goal with
      | |- exists v, lookup ?name groups = Some v /\ _ =>
          destruct (Hrep name NotSpace 0) as (v & Hv & Ho & _);
          [find_field | exists v; auto]
      end.
  - repeat constructor; apply Hdot; find_field.
Qed.

Lemma matched_record_field_formats_witness :
  (exists v, lookup "remote_addr" test_expected_record = Some v /\
             only digit_or_dot v = true /\ 1 <= String.length v) /\
  (exists v, lookup "status" test_expected_record = Some v /\
             only is_digit v = true /\ 1 <= String.length v) /\
  Forall (fun name => exists v, lookup name test_expected_record = Some v /\
                                only not_space v = true)
         ["remote_user"; "http_x_real_ip"; "body_bytes_sent"] /\
  Forall (fun name => exists v, lookup name test_expected_record = Some v /\
                                has_newline v = false)
         ["time_local"; "request_method"; "request_url"; "request_protocol";
          "http_referer"; "http_user_agent"; "http_x_forwarded_for";
          "http_X_REQUEST_ID"; "http_X_RB_USER"].
Proof.
  apply (matched_record_field_formats (hd "" test_log_lines)).
  vm_compute. reflexivity.
Defined.

(** ** From the lines to the sample set *)

Lemma match_line_sample line groups :
  match_line line = Some groups ->
  exists u x, sample_of groups = Some (u, x) /\ (0 <= x)%Q.
Proof.
  intros Hm.
  destruct (match_line_request_url line groups Hm) as (u & Hu & _).
  destruct (match_line_request_time line groups Hm)
    as (d1 & d2 & Hl & H1 & L1 & H2 & L2).
  destruct (float_decimal_nonneg d1 d2 H1 L1 H2 L2) as (_ & x & Hx & Hpos).
  exists u, x. unfold sample_of. now rewrite Hu, Hl, Hx.
Qed.

Lemma samples_of_matched_records lines :
  length (samples (matched_records lines)) = length (matched_records lines) /\
  Forall (fun p => (0 <= snd p)%Q) (samples (matched_records lines)).
Proof.
  induction lines as [|line lines [IH1 IH2]]; simpl; [split; constructor|].
  destruct (match_line line) as [g|] eqn:E; [|auto].
  destruct (match_line_sample line g E) as (u & x & Hs & Hx).
  simpl. rewrite Hs. simpl. split; [now rewrite IH1 | now constructor].
Qed.

Lemma well_formed_append_time u x m :
  (0 <= x)%Q -> well_formed m -> well_formed (append_time u x m).
Proof.
  intros Hx. unfold well_formed.
  induction 1 as [|[k ts] m [Hne Hts] Hm IH]; simpl.
  - repeat constructor; [discriminate | exact Hx].
  - destruct (String.eqb k u); constructor; auto. simpl in *. split.
    + now destruct ts.
    + apply Forall_app. split; [exact Hts | now constructor].
Qed.

Lemma well_formed_add_samples : forall ps acc,
  Forall (fun p => (0 <= snd p)%Q) ps -> well_formed acc ->
  well_formed (add_samples ps acc).
Proof.
  unfold add_samples. induction ps as [|p ps IH]; intros acc Hps Hacc; simpl;
    [exact Hacc|].
  inversion Hps; subst. apply IH; [assumption|].
  now apply well_formed_append_time.
Qed.

Lemma total_count_add_samples : forall ps acc,
  total_count (add_samples ps acc) = (total_count acc + len ps)%Z.
Proof.
  unfold add_samples, len. induction ps as [|p ps IH]; intros acc.
  - simpl. lia.
  - simpl fold_left. rewrite IH, total_count_append_time. simpl length. lia.
Qed.

Lemma len_cons {A : Type} (a : A) l : len (a :: l) = (1 + len l)%Z.
Proof. unfold len. simpl length. lia. Qed.

Lemma len_matched_records lines :
  len (matched_records lines) = (len lines - unmatched_count lines)%Z.
Proof.
  induction lines as [|line lines IH].
  - reflexivity.
  - rewrite unmatched_count_cons, len_cons. unfold matched.
    cbn [matched_records].
    destruct (match_line line); [rewrite len_cons|]; lia.
Qed.

(** A stream that ends normally has a matched line. *)
Lemma parse_lines_ok_has_match lines :
  ending (parse_lines lines) = Ok tt ->
  (0 < len lines - unmatched_count lines)%Z.
Proof.
  intros H. destruct lines as [|line lines]; [discriminate|].
  set (ls := line :: lines) in *.
  assert (Hne : ls <> []) by discriminate.
  destruct (parse_lines_ending ls Hne) as (b & _ & Hiff & He).
  rewrite He in H. destruct b; [discriminate|].
  pose proof (unmatched_count_bounds ls) as Hb.
  pose proof (len_pos ls Hne) as Hpos.
  destruct (Z.eq_dec (unmatched_count ls) (len ls)) as [E|E]; [|lia].
  exfalso. assert (false = true); [|discriminate]. apply Hiff.
  unfold unmatched_perc. rewrite E.
  assert (Hnz : ~ (inject_Z (len ls) == 0)%Q) by (apply inject_Z_nonzero; lia).
  setoid_replace (inject_Z (len ls) / inject_Z (len ls))%Q with 1%Q
    by (field; exact Hnz).
  unfold limit_perc_default, Qle. simpl. lia.
Qed.

(** The aggregator on the records of the parser.  An error at the end of
    [parse_lines] is the error of the aggregator; otherwise the aggregator
    returns a sample set that is not empty, in which every URL has a sample
    and no sample is negative, with one sample per matched line. *)
Theorem collect_times_of_parsed_lines :
  forall lines : list string,
    (forall e, ending (parse_lines lines) = Raise e ->
               collect_times_for_urls (parse_lines lines) = Raise e) /\
    (ending (parse_lines lines) = Ok tt ->
     exists tm, collect_times_for_urls (parse_lines lines) = Ok tm /\
                tm <> [] /\ well_formed tm /\
                total_count tm = (len lines - unmatched_count lines)%Z).
Proof.
  intros lines.
  assert (Hy : yields (parse_lines lines) = matched_records lines)
    by apply (parse_lines_from_trace lines 0 0).
  pose proof (collect_times_from_ending (parse_lines lines) []) as Hc.
  rewrite Hy in Hc. specialize (Hc (matched_records_readable lines)).
  unfold collect_times_for_urls. split.
  - intros e He. now rewrite He in Hc.
  - intros He. pose proof (parse_lines_ok_has_match lines He) as Hpos.
    rewrite He in Hc. destruct Hc as (tm & Htm).
    exists tm. split; [exact Htm|].
    apply collect_times_from_ok in Htm as (_ & _ & ->). rewrite Hy.
    destruct (samples_of_matched_records lines) as [Hl Hnn].
    assert (Hc : total_count (add_samples (samples (matched_records lines)) [])
                 = (len lines - unmatched_count lines)%Z).
    { rewrite total_count_add_samples, <- len_matched_records.
      unfold len. rewrite Hl. reflexivity. }
    split; [|split; [|exact Hc]].
    + intros E. rewrite E in Hc. change (total_count []) with 0%Z in Hc. lia.
    + apply well_formed_add_samples; [exact Hnn | constructor].
Qed.

Lemma collect_times_of_parsed_lines_witness :
  (forall e, ending (parse_lines test_log_lines) = Raise e ->
             collect_times_for_urls (parse_lines test_log_lines) = Raise e) /\
  exists tm, collect_times_for_urls (parse_lines test_log_lines) = Ok tm /\
             tm <> [] /\ well_formed tm /\
             total_count tm = (len test_log_lines
                               - unmatched_count test_log_lines)%Z.
Proof.
  destruct (collect_times_of_parsed_lines test_log_lines) as [H1 H2].
  split; [exact H1|]. apply H2. vm_compute. reflexivity.
Defined.

(** ** The statistics, in general *)

Lemma bind_ok {A B : Type} (r : result A) (f : A -> result B) b :
  bind r f = Ok b -> exists a, r = Ok a /\ f a = Ok b.
Proof. destruct r as [a|e]; simpl; intros H; [eauto | discriminate]. Qed.

Lemma truediv_ok_inv a b q : truediv a b = Ok q -> ~ (b == 0)%Q.
Proof.
  unfold truediv. destruct (Qeq_bool b 0) eqn:E; [discriminate|].
  intros _. now apply Qeq_bool_neq.
Qed.

Lemma total_count_first_pos u times rest :
  times <> [] -> (0 < total_count ((u, times) :: rest))%Z.
Proof.
  intros H. pose proof (total_count_nonneg rest) as Hn.
  pose proof (len_pos times H) as Hl.
  change (total_count ((u, times) :: rest))
    with (len times + total_count rest)%Z.
  lia.
Qed.

Lemma total_count_has_samples tm item :
  In item tm -> snd item <> [] -> (0 < total_count tm)%Z.
Proof.
  intros Hin Hne. pose proof (total_count_In tm item Hin).
  pose proof (len_pos (snd item) Hne). lia.
Qed.

(** The rows, when every URL has a sample and the total time is not zero
    (negative samples allowed). *)
Lemma analyze_requests_rows_general tm :
  Forall (fun item => snd item <> []) tm -> ~ (total_time tm == 0)%Q ->
  exists rows, analyze_requests tm = Ok rows /\ Forall2 (row_for tm) tm rows.
Proof.
  intros Hne Ht. unfold analyze_requests.
  destruct (totals_spec tm) as [H1 H2].
  destruct (totals tm) as [tc tt]. simpl in H1, H2.
  apply analyze_items_rows; auto.
  - rewrite H1. clear H1 H2.
    destruct tm as [|[u times] rest]; [exfalso; apply Ht; reflexivity|].
    inversion Hne as [|? ? Hx Hrest]; subst.
    pose proof (total_count_first_pos u times rest Hx). lia.
  - now rewrite H2.
Qed.




Lemma analyze_url_raise tc tt u times e :
  analyze_url tc tt u times = Raise e ->
  (e = max_of_empty /\ times = []) \/
  (e = ZeroDivisionError /\ times <> [] /\ (tc = 0%Z \/ (tt == 0)%Q)).
Proof.
  unfold analyze_url. intros H.
  destruct times as [|x times].
  - left. simpl in H. injection H as <-. auto.
  - right. set (ts := x :: times) in *. simpl max in H. cbn [bind] in H.
    assert (Hts : ts <> []) by discriminate.
    unfold truediv at 1 in H.
    destruct (Qeq_bool (inject_Z tc) 0) eqn:Ec.
    { injection H as <-. split; [reflexivity|]. split; [exact Hts|]. left.
      apply Qeq_bool_iff in Ec. unfold Qeq in Ec. simpl in Ec. lia. }
    cbn [bind] in H. unfold truediv at 1 in H.
    destruct (Qeq_bool tt 0) eqn:Et.
    { injection H as <-. split; [reflexivity|]. split; [exact Hts|]. right.
      now apply Qeq_bool_iff. }
    cbn [bind] in H.
    rewrite truediv_ok in H
      by (apply inject_Z_nonzero; pose proof (len_pos ts Hts); lia).
    cbn [bind] in H. rewrite (calc_median_sorted ts Hts) in H.
    discriminate.
Qed.

Lemma analyze_items_raise tc tt : forall items e,
  analyze_items tc tt items = Raise e ->
  (e = max_of_empty /\ Exists (fun item => snd item = []) items) \/
  (e = ZeroDivisionError /\
   ((tc = 0%Z /\ Exists (fun item => snd item <> []) items) \/ (tt == 0)%Q)).
Proof.
  induction items as [|[u times] items IH]; intros e H; simpl in H;
    [discriminate|].
  apply bind_raise in H as [H|(row & _ & H)].
  - apply analyze_url_raise in H as [[-> ->]|(-> & Hts & [->|Ht])].
    + left. split; [reflexivity|]. now left.
    + right. split; [reflexivity|]. left. split; [reflexivity|]. now left.
    + right. auto.
  - apply bind_raise in H as [H|(rows & _ & H)]; [|discriminate].
    apply IH in H as [[-> Hex]|(-> & [[-> Hex]|Ht])].
    + left. split; [reflexivity|]. now right.
    + right. split; [reflexivity|]. left. split; [reflexivity|]. now right.
    + right. auto.
Qed.

Lemma analyze_items_ok_inv tc tt : forall items rows,
  analyze_items tc tt items = Ok rows ->
  Forall (fun item => snd item <> []) items /\
  (items = [] \/ ~ (tt == 0)%Q).
Proof.
  induction items as [|[u times] items IH]; intros rows H; simpl in H.
  - split; [constructor | now left].
  - apply bind_ok in H as (row & Hrow & H).
    apply bind_ok in H as (rows' & Hrows & _).
    apply IH in Hrows as [Hall _].
    unfold analyze_url in Hrow.
    apply bind_ok in Hrow as (hi & Hhi & Hrow).
    apply bind_ok in Hrow as (cp & _ & Hrow).
    apply bind_ok in Hrow as (tp & Htp & _).
    apply truediv_ok_inv in Htp. split; [|now right].
    constructor; [|exact Hall]. simpl. intros ->. discriminate.
Qed.

Lemma analyze_requests_ok_inv tm rows :
  analyze_requests tm = Ok rows ->
  Forall (fun item => snd item <> []) tm /\
  (tm = [] \/ ~ (total_time tm == 0)%Q).
Proof.
  intros H. unfold analyze_requests in H.
  destruct (totals_spec tm) as [_ H2].
  destruct (totals tm) as [tc tt]. simpl in H2.
  apply analyze_items_ok_inv in H as [Hall Ht].
  split; [exact Hall|]. destruct Ht as [Ht|Ht]; [now left | right].
  now rewrite <- H2.
Qed.

(** The outcomes of the statistics.  They return rows exactly when every
    URL has a sample and, unless there is no URL at all, the total time is
    not zero.  Otherwise they raise ZeroDivisionError, with a total time of
    zero, or the ValueError of [max], with a URL that has no sample. *)
Theorem analyze_requests_outcomes :
  forall tm : times_map,
    ((exists rows, analyze_requests tm = Ok rows) <->
     Forall (fun item => snd item <> []) tm /\
     (tm = [] \/ ~ (total_time tm == 0)%Q)) /\
    (forall e, analyze_requests tm = Raise e ->
       (e = ZeroDivisionError /\ (total_time tm == 0)%Q) \/
       (e = max_of_empty /\ Exists (fun item => snd item = []) tm)).
Proof.
  intros tm. split; [split|].
  - intros (rows & H). now apply (analyze_requests_ok_inv tm rows).
  - intros [Hall [->|Ht]]; [now exists []|].
    destruct (analyze_requests_rows_general tm Hall Ht) as (rows & H & _).
    now exists rows.
  - intros e H. unfold analyze_requests in H.
    destruct (totals_spec tm) as [H1 H2].
    destruct (totals tm) as [tc tt]. simpl in H1, H2.
    apply analyze_items_raise in H as [[-> Hex]|(-> & [[-> Hex]|Ht])].
    + now right.
    + exfalso. apply Exists_exists in Hex as (item & Hin & Hne).
      pose proof (total_count_has_samples tm item Hin Hne). lia.
    + left. split; [reflexivity | now rewrite <- H2].
Qed.

Lemma analyze_requests_outcomes_witness :
  (ZeroDivisionError = ZeroDivisionError /\ (total_time [("/", [0%Q])] == 0)%Q) \/
  (ZeroDivisionError = max_of_empty /\
   Exists (fun item : string * list Q => snd item = []) [("/", [0%Q])]).
Proof.
  apply (proj2 (analyze_requests_outcomes [("/", [0%Q])]) ZeroDivisionError).
  vm_compute. reflexivity.
Defined.

(** ** Order between the fields of a row *)







Lemma middle_of_sorted_bounds s lo hi :
  s <> [] -> Forall (fun x => (lo <= x <= hi)%Q) s ->
  (lo <= middle_of_sorted s <= hi)%Q.
Proof.
  intros Hne Hall. unfold middle_of_sorted.
  assert (Hn : 0 < length s) by (destruct s; [congruence | simpl; lia]).
  assert (Hhalf : length s / 2 < length s) by (apply Nat.div_lt; lia).
  rewrite Forall_forall in Hall.
  assert (Hnth : forall i, i < length s -> (lo <= nth i s 0 <= hi)%Q).
  { intros i Hi. apply Hall. now apply nth_In. }
  destruct (Nat.odd (length s)).
  - now apply Hnth.
  - pose proof (Hnth (length s / 2 - 1)) as Ha.
    pose proof (Hnth (length s / 2) Hhalf) as Hb.
    assert (Hi : length s / 2 - 1 < length s) by lia.
    specialize (Ha Hi).
    unfold Qdiv. change (/ 2)%Q with (1 # 2)%Q. lra.
Qed.




(** ** The ranker, once more *)

Lemma sort_requests_of_sorted rows :
  sorted_by_time_sum_desc rows -> sort_requests_by_time_sum rows = rows.
Proof.
  unfold sorted_by_time_sum_desc.
  induction 1 as [|r rows Hs IH Hr]; [reflexivity|].
  simpl. rewrite IH. destruct rows as [|r' rows]; [reflexivity|].
  simpl. inversion Hr as [|? ? Hle _]; subst.
  apply Qle_bool_iff in Hle. now rewrite Hle.
Qed.

(** Rows already in descending order of [time_sum] are returned as they
    are; so sorting twice is sorting once. *)
Theorem sort_requests_by_time_sum_idempotent :
  forall rows : list UrlStats,
    (sorted_by_time_sum_desc rows -> sort_requests_by_time_sum rows = rows) /\
    sort_requests_by_time_sum (sort_requests_by_time_sum rows)
    = sort_requests_by_time_sum rows.
Proof.
  intros rows. split; [apply sort_requests_of_sorted|].
  apply sort_requests_of_sorted, sort_requests_by_time_sum_sorted.
Qed.

Lemma sort_requests_by_time_sum_idempotent_witness :
  sort_requests_by_time_sum
    [sample_row "/b" 3; sample_row "/d" 3; sample_row "/a" 1]
  = [sample_row "/b" 3; sample_row "/d" 3; sample_row "/a" 1].
Proof.
  apply (proj1 (sort_requests_by_time_sum_idempotent
                  [sample_row "/b" 3; sample_row "/d" 3; sample_row "/a" 1])).
  unfold sorted_by_time_sum_desc.
  repeat (constructor; [|repeat constructor; simpl; discriminate]).
  constructor.
Defined.

(** ** The configuration *)

Lemma lookup_setitem {V : Type} k k' (v : V) d :
  lookup k (setitem k' v d) = if String.eqb k' k then Some v else lookup k d.
Proof.
  induction d as [|[k0 v0] d IH]; simpl.
  - reflexivity.
  - destruct (String.eqb k0 k') eqn:E0; simpl.
    + apply String.eqb_eq in E0. subst k0. now destruct (String.eqb k' k).
    + destruct (String.eqb k0 k) eqn:E1; [|exact IH].
      apply String.eqb_eq in E1. subst k0.
      rewrite String.eqb_sym in E0. now rewrite E0.
Qed.

Lemma lookup_update {V : Type} k : forall (other d : list (string * V)),
  NoDup (map fst other) ->
  lookup k (update d other)
  = match lookup k other with Some v => Some v | None => lookup k d end.
Proof.
  unfold update. induction other as [|[k' v] other IH]; intros d H; simpl.
  - reflexivity.
  - inversion H as [|? ? Hn Hd]; subst. rewrite IH by exact Hd.
    rewrite lookup_setitem. destruct (String.eqb k' k) eqn:E.
    + apply String.eqb_eq in E. subst k'. now rewrite lookup_notin.
    + reflexivity.
Qed.

(** A key of the custom configuration has its custom value, every other
    key its default; so [REPORT_SIZE] is always there, and without a
    custom configuration the configuration is the default one. *)
Theorem set_config_overrides_defaults :
  forall (custom : config) (k : string),
    NoDup (map fst custom) ->
    lookup k (set_config (Some custom))
    = match lookup k custom with
      | Some v => Some v
      | None => lookup k DEFAULT_CONFIG
      end /\
    lookup "REPORT_SIZE" (set_config (Some custom)) <> None /\
    set_config None = DEFAULT_CONFIG.
Proof.
  intros custom k H. unfold set_config.
  split; [now apply lookup_update|]. split; [|reflexivity].
  rewrite lookup_update by exact H.
  now destruct (lookup "REPORT_SIZE" custom).
Qed.

Lemma set_config_overrides_defaults_witness :
  lookup "REPORT_SIZE" (set_config (Some [("REPORT_SIZE", JInt 50);
                                          ("LOG_DIR", JStr "./log")]))
  = match lookup "REPORT_SIZE" [("REPORT_SIZE", JInt 50);
                                ("LOG_DIR", JStr "./log")] with
    | Some v => Some v
    | None => lookup "REPORT_SIZE" DEFAULT_CONFIG
    end /\
  lookup "REPORT_SIZE" (set_config (Some [("REPORT_SIZE", JInt 50);
                                          ("LOG_DIR", JStr "./log")])) <> None /\
  set_config None = DEFAULT_CONFIG.
Proof.
  apply (set_config_overrides_defaults
           [("REPORT_SIZE", JInt 50); ("LOG_DIR", JStr "./log")] "REPORT_SIZE").
  repeat constructor; simpl; intuition discriminate.
Defined.


(** ** The run, from the lines of the log to the rows of the report *)















(** ** The names of the logs *)

Lemma string_of_list_ascii_app l1 l2 :
  string_of_list_ascii (l1 ++ l2)
  = (string_of_list_ascii l1 ++ string_of_list_ascii l2)%string.
Proof. induction l1 as [|a l1 IH]; simpl; [reflexivity | now rewrite IH]. Qed.

Lemma strip_prefix_spec p : forall l r,
  strip_prefix p l = Some r <-> l = p ++ r.
Proof.
  induction p as [|a p IH]; intros l r; simpl.
  - split; [now intros [= ->] | now intros ->].
  - destruct l as [|b l]; [split; discriminate|].
    destruct (Ascii.eqb a b) eqn:E.
    + apply Ascii.eqb_eq in E. subst b. rewrite IH.
      split; [now intros -> | now intros [= ->]].
    + split; [discriminate|]. intros [= -> _].
      now rewrite Ascii.eqb_refl in E.
Qed.

Lemma lookbehind_spec before_rev :
  lookbehind before_rev = true <->
  exists pre_rev,
    before_rev = rev (list_ascii_of_string log_name) ++ pre_rev /\
    match pre_rev with
    | [] => True
    | a :: _ => is_word a = false
    end.
Proof.
  unfold lookbehind. split.
  - destruct (strip_prefix _ before_rev) as [r|] eqn:E; [|discriminate].
    apply strip_prefix_spec in E. intros H. exists r. split; [exact E|].
    destruct r as [|a r]; [exact I | now apply negb_true_iff].
  - intros (r & -> & H).
    assert (E : strip_prefix (rev (list_ascii_of_string log_name))
                  (rev (list_ascii_of_string log_name) ++ r) = Some r)
      by now apply strip_prefix_spec.
    rewrite E. destruct r as [|a r]; [reflexivity | now apply negb_true_iff].
Qed.

Lemma lookahead_spec after :
  lookahead after = true <->
  after = [] \/ after = ["010"%char] \/
  exists t, after = "."%char :: "g"%char :: "z"%char :: t.
Proof.
  unfold lookahead. split.
  - intros H. destruct after as [|a after]; [now left|]. right.
    destruct (Ascii.eqb a "010") eqn:Ea.
    + apply Ascii.eqb_eq in Ea. subst a.
      destruct after; [now left | discriminate].
    + destruct (Ascii.eqb a ".") eqn:Ed.
      * apply Ascii.eqb_eq in Ed. subst a. right.
        destruct after as [|g after]; [discriminate|].
        destruct (Ascii.eqb g "g") eqn:Eg.
        -- apply Ascii.eqb_eq in Eg. subst g.
           destruct after as [|z after]; [discriminate|].
           destruct (Ascii.eqb z "z") eqn:Ez.
           ++ apply Ascii.eqb_eq in Ez. subst z. now exists after.
           ++ exfalso. apply Ascii.eqb_neq in Ez.
              destruct z as [[] [] [] [] [] [] [] []]; try discriminate H.
              now apply Ez.
        -- exfalso. apply Ascii.eqb_neq in Eg.
           destruct g as [[] [] [] [] [] [] [] []]; try discriminate H;
             try (destruct after; discriminate H).
           now apply Eg.
      * exfalso. apply Ascii.eqb_neq in Ea. apply Ascii.eqb_neq in Ed.
        destruct a as [[] [] [] [] [] [] [] []]; try discriminate H;
          try (destruct after; discriminate H);
          congruence.
  - intros [->|[->|(t & ->)]]; reflexivity.
Qed.

Lemma append_assoc (a b c : string) :
  ((a ++ b) ++ c = a ++ b ++ c)%string.
Proof. induction a as [|x a IH]; simpl; [reflexivity | now rewrite IH]. Qed.

Lemma length_list_ascii_of_string s :
  length (list_ascii_of_string s) = String.length s.
Proof. induction s as [|a s IH]; simpl; [reflexivity | now rewrite IH]. Qed.

(** The pattern at a place, in words. *)
Lemma date_at_spec l1 l2 d :
  date_at (rev l1) l2 = Some d <->
  exists pre post,
    l1 = pre ++ list_ascii_of_string log_name /\
    l2 = list_ascii_of_string d ++ post /\
    eight_digits d /\
    match rev pre with [] => True | a :: _ => is_word a = false end /\
    lookahead post = true.
Proof.
  unfold date_at. split.
  - destruct (lookbehind (rev l1)) eqn:Hb; [|discriminate].
    destruct (length (firstn 8 l2) =? 8) eqn:Hl; [|discriminate].
    destruct (forallb is_digit (firstn 8 l2)) eqn:Hd; [|discriminate].
    destruct (lookahead (skipn 8 l2)) eqn:Ha; [|discriminate].
    cbn [andb]. intros E.
    assert (Ed : d = string_of_list_ascii (firstn 8 l2)) by congruence.
    clear E. subst d.
    apply lookbehind_spec in Hb as (pre_rev & Hb & Hw).
    apply Nat.eqb_eq in Hl.
    exists (rev pre_rev), (skipn 8 l2).
    rewrite list_ascii_of_string_of_list_ascii, rev_involutive.
    split; [|split; [|split; [|split]]].
    + rewrite <- (rev_involutive l1), Hb, rev_app_distr, rev_involutive.
      reflexivity.
    + symmetry. apply firstn_skipn.
    + unfold eight_digits. rewrite list_ascii_of_string_of_list_ascii.
      split; [|exact Hd].
      now rewrite <- length_list_ascii_of_string,
        list_ascii_of_string_of_list_ascii.
    + exact Hw.
    + exact Ha.
  - intros (pre & post & -> & -> & [Hl Hd] & Hw & Ha).
    rewrite <- length_list_ascii_of_string in Hl.
    assert (Hb : lookbehind (rev (pre ++ list_ascii_of_string log_name)) = true).
    { apply lookbehind_spec. exists (rev pre). split; [|exact Hw].
      apply rev_app_distr. }
    assert (F : firstn 8 (list_ascii_of_string d ++ post)
                = list_ascii_of_string d).
    { rewrite <- Hl, firstn_app, Nat.sub_diag, firstn_all.
      apply app_nil_r. }
    assert (S : skipn 8 (list_ascii_of_string d ++ post) = post).
    { rewrite <- Hl, skipn_app, Nat.sub_diag, skipn_all. reflexivity. }
    rewrite Hb, F, S, Hl, Hd, Ha. cbn [andb Nat.eqb].
    now rewrite string_of_list_ascii_of_string.
Qed.

Lemma findall_from_sound : forall after skip before_rev d,
  In d (findall_from skip before_rev after) ->
  exists l1 l2, after = l1 ++ l2 /\ date_at (rev l1 ++ before_rev) l2 = Some d.
Proof.
  induction after as [|a after IH]; intros skip before_rev d H; simpl in H;
    [contradiction|].
  assert (Hrec : forall k, In d (findall_from k (a :: before_rev) after) ->
                 exists l1 l2, a :: after = l1 ++ l2 /\
                               date_at (rev l1 ++ before_rev) l2 = Some d).
  { intros k Hk. apply IH in Hk as (l1 & l2 & -> & Hd).
    exists (a :: l1), l2. split; [reflexivity|].
    simpl. now rewrite <- app_assoc. }
  destruct skip as [|skip]; [|now apply (Hrec skip)].
  destruct (date_at before_rev (a :: after)) as [d'|] eqn:E;
    [|now apply (Hrec 0)].
  destruct H as [<-|H]; [|now apply (Hrec 7)].
  now exists [], (a :: after).
Qed.

Lemma findall_from_complete d : forall l1 l2 before_rev,
  date_at (rev l1 ++ before_rev) l2 = Some d ->
  findall_from 0 before_rev (l1 ++ l2) <> [].
Proof.
  induction l1 as [|a l1 IH]; intros l2 before_rev H; simpl in H.
  - simpl. destruct l2 as [|b l2].
    { unfold date_at in H. simpl in H.
      destruct (lookbehind before_rev); discriminate H. }
    simpl. now rewrite H.
  - simpl. destruct (date_at before_rev (a :: l1 ++ l2)); [discriminate|].
    apply IH. now rewrite <- app_assoc in H.
Qed.

Lemma dated_name_iff file d :
  dated_name file d <->
  exists l1 l2, list_ascii_of_string file = l1 ++ l2 /\
                date_at (rev l1) l2 = Some d.
Proof.
  split.
  - intros (pre & post & -> & Hd & Hpre & Hpost).
    exists (list_ascii_of_string pre ++ list_ascii_of_string log_name),
           (list_ascii_of_string d ++ list_ascii_of_string post).
    split; [now rewrite !list_ascii_of_string_app, app_assoc|].
    apply date_at_spec.
    exists (list_ascii_of_string pre), (list_ascii_of_string post).
    split; [reflexivity|]. split; [reflexivity|]. split; [exact Hd|]. split.
    + destruct Hpre as [->|(p & a & -> & Ha)]; [exact I|].
      rewrite list_ascii_of_string_app, rev_app_distr. exact Ha.
    + apply lookahead_spec.
      destruct Hpost as [->|[->|(t & ->)]]; [now left | right; now left|].
      right. right. now exists (list_ascii_of_string t).
  - intros (l1 & l2 & Hf & H).
    apply date_at_spec in H as (pre & post & -> & -> & Hd & Hw & Ha).
    exists (string_of_list_ascii pre), (string_of_list_ascii post).
    split; [|split; [exact Hd|split]].
    + rewrite <- (string_of_list_ascii_of_string file), Hf.
      rewrite !string_of_list_ascii_app, !string_of_list_ascii_of_string.
      now rewrite append_assoc.
    + destruct (rev pre) as [|a r] eqn:E.
      * left. apply (f_equal (@rev ascii)) in E.
        rewrite rev_involutive in E. now rewrite E.
      * right. exists (string_of_list_ascii (rev r)), a.
        split; [|exact Hw].
        apply (f_equal (@rev ascii)) in E. rewrite rev_involutive in E.
        rewrite E. simpl. now rewrite string_of_list_ascii_app.
    + apply lookahead_spec in Ha as [->|[->|(t & ->)]];
        [now left | right; now left|].
      right. right. now exists (string_of_list_ascii t).
Qed.

(** What [re.findall] finds in a name: every string it returns is eight
    digits that the name holds as the pattern asks, and it returns one
    whenever the name holds such digits. *)
Theorem findall_finds_dated_names :
  forall file : string,
    (forall d, In d (findall file) -> dated_name file d) /\
    ((exists d, dated_name file d) -> findall file <> []).
Proof.
  intros file. split.
  - intros d H. apply dated_name_iff. unfold findall in H.
    apply findall_from_sound in H as (l1 & l2 & Hf & H).
    rewrite app_nil_r in H. now exists l1, l2.
  - intros (d & H). apply dated_name_iff in H as (l1 & l2 & Hf & H).
    unfold findall. rewrite Hf. apply (findall_from_complete d).
    now rewrite app_nil_r.
Qed.

Lemma findall_finds_dated_names_witness :
  findall "nginx-access-ui.log-20180630.gz" <> [].
Proof.
  apply (proj2 (findall_finds_dated_names "nginx-access-ui.log-20180630.gz")).
  exists "20180630", "", ".gz". split; [reflexivity|].
  split; [split; reflexivity|]. split; [now left|].
  right. right. now exists "".
Defined.

(** ** The latest log *)

Ltac date_order :=
  unfold date_gt in *;
  repeat (progress
            rewrite ?orb_true_iff, ?orb_false_iff, ?andb_true_iff,
              ?andb_false_iff, ?Z.ltb_lt, ?Z.ltb_ge, ?Z.eqb_eq, ?Z.eqb_neq
              in *);
  lia.

Lemma date_gt_trans a b c :
  date_gt a b = true -> date_gt b c = true -> date_gt a c = true.
Proof. intros H1 H2. date_order. Qed.

Lemma date_gt_le_trans a b c :
  date_gt a b = true -> date_gt c b = false -> date_gt a c = true.
Proof. intros H1 H2. date_order. Qed.

Lemma date_gt_irrefl a : date_gt a a = false.
Proof. date_order. Qed.

Lemma try_parse_date_valid s d : try_parse_date s = Some d -> valid_date d.
Proof.
  unfold try_parse_date.
  destruct (list_ascii_of_string s)
    as [|y1 [|y2 [|y3 [|y4 [|m1 [|m2 [|d1 [|d2 [|]]]]]]]]]; try discriminate.
  destruct (forallb is_digit _) eqn:Hd; [|discriminate].
  remember (digits_value 0 [y1; y2; y3; y4]) as y eqn:Ey.
  remember (digits_value 0 [m1; m2]) as m eqn:Em.
  remember (digits_value 0 [d1; d2]) as dd eqn:Edd.
  assert (Hy : (y <= 9999)%Z).
  { cbn [forallb] in Hd. unfold is_digit in Hd.
    repeat (apply andb_prop in Hd as [? Hd]).
    repeat match goal with
           | H : (_ && _)%bool = true |- _ => apply andb_prop in H as [? ?]
           | H : (_ <=? _) = true |- _ => apply Nat.leb_le in H
           end.
    assert (B : forall a, 48 <= nat_of_ascii a -> nat_of_ascii a <= 57 ->
                          (0 <= digit_value a <= 9)%Z)
      by (intros a ? ?; unfold digit_value; lia).
    pose proof (B y1) as B1. pose proof (B y2) as B2.
    pose proof (B y3) as B3. pose proof (B y4) as B4.
    subst y. cbn [digits_value].
    generalize dependent (digit_value y1). generalize dependent (digit_value y2).
    generalize dependent (digit_value y3). generalize dependent (digit_value y4).
    intros. lia. }
  cbv zeta.
  destruct (_ && _)%bool eqn:E; [|discriminate]. intros [= <-].
  repeat (apply andb_prop in E as [E ?]).
  repeat match goal with
         | H : (_ <=? _)%Z = true |- _ => apply Z.leb_le in H
         end.
  unfold valid_date. cbn [year month day]. lia.
Qed.

Lemma log_date_of_bad file : has_bad_date file = true -> log_date_of file = None.
Proof.
  unfold has_bad_date, log_date_of. destruct (findall file); [discriminate|].
  now destruct (try_parse_date s).
Qed.

(** The loop, once a date is held. *)
Lemma find_latest_from_some log_dir : forall files last lp,
  match find_latest_from log_dir files (Some last) (Some lp) with
  | Ok r =>
      exists log,
        r = Some log /\
        Forall (fun f => has_bad_date f = false) files /\
        ((log = {| path := Some lp; date := last |} /\
          forall f d, In f files -> log_date_of f = Some d ->
                      date_gt d last = false) \/
         (exists l1 file l2,
            files = l1 ++ file :: l2 /\
            path log = Some (join log_dir file) /\
            log_date_of file = Some (date log) /\
            date_gt (date log) last = true /\
            (forall f d, In f l1 -> log_date_of f = Some d ->
                         date_gt (date log) d = true) /\
            (forall f d, In f l2 -> log_date_of f = Some d ->
                         date_gt d (date log) = false)))
  | Raise e =>
      e = TypeError /\
      exists l1 f l2, files = l1 ++ f :: l2 /\ has_bad_date f = true
  end.
Proof.
  induction files as [|file rest IH]; intros last lp.
  - simpl. eexists. split; [reflexivity|]. split; [constructor|].
    left. split; [reflexivity|]. intros f d [].
  - cbn [find_latest_from].
    assert (Hshift : forall (l1 : list string) f (l2 : list string),
               rest = l1 ++ f :: l2 -> file :: rest = (file :: l1) ++ f :: l2)
      by (intros l1 f l2 ->; reflexivity).
    destruct (findall file) as [|s ss] eqn:Ef.
    + assert (Hnone : log_date_of file = None)
        by (unfold log_date_of; now rewrite Ef).
      assert (Hbad : has_bad_date file = false)
        by (unfold has_bad_date; now rewrite Ef).
      specialize (IH last lp).
      destruct (find_latest_from log_dir rest (Some last) (Some lp)) as [r|e].
      * destruct IH as (log & -> & Hall & Hlog). exists log.
        split; [reflexivity|]. split; [now constructor|].
        destruct Hlog as [[-> Hle]|(l1 & f & l2 & -> & Hp & Hd & Hgt & H1 & H2)].
        -- left. split; [reflexivity|].
           intros f d [<-|Hin] Hd; [congruence | now apply (Hle f)].
        -- right. exists (file :: l1), f, l2.
           split; [reflexivity|]. split; [exact Hp|]. split; [exact Hd|].
           split; [exact Hgt|]. split; [|exact H2].
           intros f' d' [<-|Hin] Hd'; [congruence | now apply (H1 f')].
      * destruct IH as (-> & l1 & f & l2 & Hr & Hb). split; [reflexivity|].
        exists (file :: l1), f, l2. split; [now apply Hshift | exact Hb].
    + destruct (try_parse_date s) as [d|] eqn:Ed.
      * assert (Hdate : log_date_of file = Some d)
          by (unfold log_date_of; now rewrite Ef).
        assert (Hbad : has_bad_date file = false)
          by (unfold has_bad_date; now rewrite Ef, Ed).
        destruct (date_gt d last) eqn:Egt.
        -- specialize (IH d (join log_dir file)).
           destruct (find_latest_from log_dir rest (Some d)
                       (Some (join log_dir file))) as [r|e].
           ++ destruct IH as (log & -> & Hall & Hlog). exists log.
              split; [reflexivity|]. split; [now constructor|]. right.
              destruct Hlog
                as [[-> Hle]|(l1 & f & l2 & -> & Hp & Hd & Hgt & H1 & H2)].
              ** exists [], file, rest. split; [reflexivity|].
                 split; [reflexivity|]. split; [exact Hdate|].
                 split; [exact Egt|]. split; [intros f d' []|exact Hle].
              ** exists (file :: l1), f, l2. split; [reflexivity|].
                 split; [exact Hp|]. split; [exact Hd|].
                 split; [now apply (date_gt_trans _ d)|]. split; [|exact H2].
                 intros f' d' [<-|Hin] Hd'; [|now apply (H1 f')].
                 congruence.
           ++ destruct IH as (-> & l1 & f & l2 & Hr & Hb). split; [reflexivity|].
              exists (file :: l1), f, l2. split; [now apply Hshift | exact Hb].
        -- specialize (IH last lp).
           destruct (find_latest_from log_dir rest (Some last) (Some lp))
             as [r|e].
           ++ destruct IH as (log & -> & Hall & Hlog). exists log.
              split; [reflexivity|]. split; [now constructor|].
              destruct Hlog
                as [[-> Hle]|(l1 & f & l2 & -> & Hp & Hd & Hgt & H1 & H2)].
              ** left. split; [reflexivity|].
                 intros f d' [<-|Hin] Hd'; [congruence | now apply (Hle f)].
              ** right. exists (file :: l1), f, l2. split; [reflexivity|].
                 split; [exact Hp|]. split; [exact Hd|].
                 split; [exact Hgt|]. split; [|exact H2].
                 intros f' d' [<-|Hin] Hd'; [|now apply (H1 f')].
                 assert (d' = d) by congruence. subst d'.
                 now apply (date_gt_le_trans _ last).
           ++ destruct IH as (-> & l1 & f & l2 & Hr & Hb). split; [reflexivity|].
              exists (file :: l1), f, l2. split; [now apply Hshift | exact Hb].
      * split; [reflexivity|]. exists [], file, rest. split; [reflexivity|].
        unfold has_bad_date. now rewrite Ef, Ed.
Qed.

(** The loop, while no date is held. *)
Lemma find_latest_from_none log_dir : forall files lp,
  match find_latest_from log_dir files None lp with
  | Ok None => forall f, In f files -> log_date_of f = None
  | Ok (Some log) =>
      exists l1 file l2,
        files = l1 ++ file :: l2 /\
        path log = Some (join log_dir file) /\
        log_date_of file = Some (date log) /\
        (forall f d, In f l1 -> log_date_of f = Some d ->
                     date_gt (date log) d = true) /\
        (forall f d, In f l2 -> log_date_of f = Some d ->
                     date_gt d (date log) = false)
  | Raise e =>
      e = TypeError /\
      exists l1 f1 l2 f2 l3,
        files = l1 ++ f1 :: l2 ++ f2 :: l3 /\
        log_date_of f1 <> None /\ has_bad_date f2 = true
  end.
Proof.
  induction files as [|file rest IH]; intros lp.
  - simpl. intros f [].
  - cbn [find_latest_from].
    assert (Hstep : forall lp',
      log_date_of file = None ->
      match find_latest_from log_dir rest None lp' with
      | Ok None => forall f, In f (file :: rest) -> log_date_of f = None
      | Ok (Some log) =>
          exists l1 file0 l2,
            file :: rest = l1 ++ file0 :: l2 /\
            path log = Some (join log_dir file0) /\
            log_date_of file0 = Some (date log) /\
            (forall f d, In f l1 -> log_date_of f = Some d ->
                         date_gt (date log) d = true) /\
            (forall f d, In f l2 -> log_date_of f = Some d ->
                         date_gt d (date log) = false)
      | Raise e =>
          e = TypeError /\
          exists l1 f1 l2 f2 l3,
            file :: rest = l1 ++ f1 :: l2 ++ f2 :: l3 /\
            log_date_of f1 <> None /\ has_bad_date f2 = true
      end).
    { intros lp' Hnone. specialize (IH lp').
      destruct (find_latest_from log_dir rest None lp') as [[log|]|e].
      - destruct IH as (l1 & f & l2 & -> & Hp & Hd & H1 & H2).
        exists (file :: l1), f, l2. split; [reflexivity|].
        split; [exact Hp|]. split; [exact Hd|]. split; [|exact H2].
        intros f' d' [<-|Hin] Hd'; [congruence | now apply (H1 f')].
      - intros f [<-|Hin]; [exact Hnone | now apply IH].
      - destruct IH as (-> & l1 & f1 & l2 & f2 & l3 & -> & H1 & H2).
        split; [reflexivity|]. exists (file :: l1), f1, l2, f2, l3.
        split; [reflexivity|]. now split. }
    destruct (findall file) as [|s ss] eqn:Ef.
    + apply Hstep. unfold log_date_of. now rewrite Ef.
    + destruct (try_parse_date s) as [d|] eqn:Ed.
      * assert (Hdate : log_date_of file = Some d)
          by (unfold log_date_of; now rewrite Ef).
        pose proof (find_latest_from_some log_dir rest d (join log_dir file))
          as Hs.
        destruct (find_latest_from log_dir rest (Some d)
                    (Some (join log_dir file))) as [r|e].
        -- destruct Hs as (log & -> & _ & Hlog).
           destruct Hlog
             as [[-> Hle]|(l1 & f & l2 & -> & Hp & Hd & Hgt & H1 & H2)].
           ++ exists [], file, rest. split; [reflexivity|].
              split; [reflexivity|]. split; [exact Hdate|].
              split; [intros f d' []|exact Hle].
           ++ exists (file :: l1), f, l2. split; [reflexivity|].
              split; [exact Hp|]. split; [exact Hd|]. split; [|exact H2].
              intros f' d' [<-|Hin] Hd'; [congruence | now apply (H1 f')].
        -- destruct Hs as (-> & l1 & f & l2 & -> & Hb). split; [reflexivity|].
           exists [], file, l1, f, l2. split; [reflexivity|].
           split; [congruence | exact Hb].
      * apply Hstep. unfold log_date_of. now rewrite Ef.
Qed.

Lemma find_latest_from_undated log_dir : forall files lp,
  (forall f, In f files -> log_date_of f = None) ->
  find_latest_from log_dir files None lp = Ok None.
Proof.
  induction files as [|file rest IH]; intros lp H; [reflexivity|].
  cbn [find_latest_from].
  pose proof (H file (or_introl eq_refl)) as Hf. unfold log_date_of in Hf.
  destruct (findall file) as [|s ss].
  - apply IH. intros f Hin. apply H. now right.
  - rewrite Hf. apply IH. intros f Hin. apply H. now right.
Qed.

Lemma find_latest_from_bad log_dir : forall files last lp,
  Exists (fun f => has_bad_date f = true) files ->
  find_latest_from log_dir files (Some last) lp = Raise TypeError.
Proof.
  induction files as [|file rest IH]; intros last lp H;
    [inversion H|].
  cbn [find_latest_from].
  assert (Hrest : has_bad_date file = false ->
                  Exists (fun f => has_bad_date f = true) rest)
    by (intros Hf; inversion H; subst; [congruence | assumption]).
  unfold has_bad_date in Hrest.
  destruct (findall file) as [|s ss]; [now apply IH, Hrest|].
  destruct (try_parse_date s) as [d|]; [|reflexivity].
  destruct (date_gt d last); now apply IH, Hrest.
Qed.

Lemma find_latest_from_bad_after log_dir f1 rest :
  log_date_of f1 <> None ->
  Exists (fun f => has_bad_date f = true) rest ->
  forall l1 last_date lp,
    find_latest_from log_dir (l1 ++ f1 :: rest) last_date lp = Raise TypeError.
Proof.
  intros H1 Hbad. induction l1 as [|file l1 IH]; intros last_date lp.
  - cbn [app find_latest_from]. unfold log_date_of in H1.
    destruct (findall f1) as [|s ss]; [congruence|].
    destruct (try_parse_date s) as [d|]; [|congruence].
    destruct last_date as [last|]; [|now apply find_latest_from_bad].
    destruct (date_gt d last); now apply find_latest_from_bad.
  - cbn [app find_latest_from].
    destruct (findall file) as [|s ss]; [apply IH|].
    destruct last_date as [last|]; [|apply IH].
    destruct (try_parse_date s) as [d|]; [|reflexivity].
    destruct (date_gt d last); apply IH.
Qed.

(** The log that [find_latest_log] returns.  It is made of a name of the
    directory: its path is the directory joined with that name and its
    date, a day of the calendar, is the date of that name; the names before
    it have earlier dates, the names after it have no later date. *)
Theorem find_latest_log_returns_the_latest :
  forall (log_dir : string) (files : list string) (log : LogFile),
    find_latest_log log_dir files = Ok (Some log) ->
    valid_date (date log) /\
    exists l1 file l2,
      files = l1 ++ file :: l2 /\
      path log = Some (join log_dir file) /\
      log_date_of file = Some (date log) /\
      (forall f d, In f l1 -> log_date_of f = Some d ->
                   date_gt (date log) d = true) /\
      (forall f d, In f l2 -> log_date_of f = Some d ->
                   date_gt d (date log) = false).
Proof.
  intros log_dir files log H. unfold find_latest_log in H.
  pose proof (find_latest_from_none log_dir files None) as Hn.
  rewrite H in Hn. destruct Hn as (l1 & file & l2 & Hf & Hp & Hd & H1 & H2).
  split; [|now exists l1, file, l2].
  unfold log_date_of in Hd. destruct (findall file) as [|s ss]; [discriminate|].
  now apply (try_parse_date_valid s).
Qed.

Lemma find_latest_log_returns_the_latest_witness :
  exists log,
    find_latest_log "/logs" test_listdir = Ok (Some log) /\
    valid_date (date log) /\
    exists l1 file l2,
      test_listdir = l1 ++ file :: l2 /\
      path log = Some (join "/logs" file) /\
      log_date_of file = Some (date log) /\
      (forall f d, In f l1 -> log_date_of f = Some d ->
                   date_gt (date log) d = true) /\
      (forall f d, In f l2 -> log_date_of f = Some d ->
                   date_gt d (date log) = false).
Proof.
  eexists. split; [vm_compute; reflexivity|].
  apply (find_latest_log_returns_the_latest "/logs" test_listdir).
  vm_compute. reflexivity.
Defined.

(** The other outcomes of [find_latest_log].  It returns [None] exactly
    when no name of the directory has a date.  It raises exactly when a
    name in which the pattern finds digits that are no day of the calendar
    comes after a name that has a date, and then it raises TypeError: the
    comparison of [None] with the date held. *)
Theorem find_latest_log_outcomes :
  forall (log_dir : string) (files : list string),
    (find_latest_log log_dir files = Ok None <->
     forall f, In f files -> log_date_of f = None) /\
    (forall e,
       find_latest_log log_dir files = Raise e <->
       e = TypeError /\
       exists l1 f1 l2 f2 l3,
         files = l1 ++ f1 :: l2 ++ f2 :: l3 /\
         log_date_of f1 <> None /\ has_bad_date f2 = true).
Proof.
  intros log_dir files. unfold find_latest_log.
  pose proof (find_latest_from_none log_dir files None) as Hn.
  split; [split|intros e; split].
  - intros H. now rewrite H in Hn.
  - apply find_latest_from_undated.
  - intros H. now rewrite H in Hn.
  - intros (-> & l1 & f1 & l2 & f2 & l3 & -> & H1 & H2).
    apply find_latest_from_bad_after; [exact H1|].
    apply Exists_app. right. now constructor.
Qed.

Lemma find_latest_log_outcomes_witness :
  find_latest_log "/logs"
    ["nginx-access-ui.log-20170630"; "nginx-access-ui.log-20170631"]
  = Raise TypeError.
Proof.
  apply (proj2 (find_latest_log_outcomes "/logs"
                  ["nginx-access-ui.log-20170630";
                   "nginx-access-ui.log-20170631"])).
  split; [reflexivity|].
  exists [], "nginx-access-ui.log-20170630", [],
         "nginx-access-ui.log-20170631", [].
  split; [reflexivity|]. split; [vm_compute; discriminate|].
  vm_compute. reflexivity.
Defined.

(** ** The name of the report *)

Lemma is_digit_cases a : is_digit a = true -> In a digit_chars.
Proof.
  destruct a as [[] [] [] [] [] [] [] []]; intros H;
    vm_compute in H; try discriminate H;
    unfold digit_chars; simpl; tauto.
Qed.

Lemma year_digits_check :
  forallb (fun y1 => forallb (fun y2 => forallb (fun y3 => forallb (fun y4 =>
    (digits_value 0 [y1; y2; y3; y4] <? 1000)%Z
    || String.eqb (str (digits_value 0 [y1; y2; y3; y4]))
                  (string_of_list_ascii [y1; y2; y3; y4]))
    digit_chars) digit_chars) digit_chars) digit_chars = true.
Proof. vm_compute. reflexivity. Qed.

Lemma two_digits_check :
  forallb (fun m1 => forallb (fun m2 =>
    String.eqb (format_02 (digits_value 0 [m1; m2]))
               (string_of_list_ascii [m1; m2]))
    digit_chars) digit_chars = true.
Proof. vm_compute. reflexivity. Qed.

(** [str] gives back the four digits of a year from 1000 on. *)
Lemma str_of_year y1 y2 y3 y4 :
  forallb is_digit [y1; y2; y3; y4] = true ->
  (1000 <= digits_value 0 [y1; y2; y3; y4])%Z ->
  str (digits_value 0 [y1; y2; y3; y4]) = string_of_list_ascii [y1; y2; y3; y4].
Proof.
  intros Hd Hy. cbn [forallb] in Hd.
  repeat (apply andb_prop in Hd as [? Hd]).
  pose proof year_digits_check as C.
  rewrite forallb_forall in C. specialize (C y1 (is_digit_cases y1 H)).
  rewrite forallb_forall in C. specialize (C y2 (is_digit_cases y2 H0)).
  rewrite forallb_forall in C. specialize (C y3 (is_digit_cases y3 H1)).
  rewrite forallb_forall in C. specialize (C y4 (is_digit_cases y4 H2)).
  apply orb_prop in C as [C|C]; [apply Z.ltb_lt in C; lia|].
  now apply String.eqb_eq.
Qed.

(** [format(n, '02')] gives back the two digits of a number. *)
Lemma format_02_of_digits m1 m2 :
  forallb is_digit [m1; m2] = true ->
  format_02 (digits_value 0 [m1; m2]) = string_of_list_ascii [m1; m2].
Proof.
  intros Hd. cbn [forallb] in Hd.
  repeat (apply andb_prop in Hd as [? Hd]).
  pose proof two_digits_check as C.
  rewrite forallb_forall in C. specialize (C m1 (is_digit_cases m1 H)).
  rewrite forallb_forall in C. specialize (C m2 (is_digit_cases m2 H0)).
  now apply String.eqb_eq.
Qed.

Lemma report_name_of_date_string s d p :
  try_parse_date s = Some d -> (1000 <= year d)%Z ->
  make_report_name_for_log {| path := p; date := d |}
  = ("report-" ++ substring 0 4 s ++ "." ++ substring 4 2 s ++ "."
     ++ substring 6 2 s ++ ".html")%string.
Proof.
  unfold try_parse_date. intros H Hy.
  rewrite <- (string_of_list_ascii_of_string s).
  destruct (list_ascii_of_string s)
    as [|y1 [|y2 [|y3 [|y4 [|m1 [|m2 [|d1 [|d2 [|]]]]]]]]]; try discriminate.
  destruct (forallb is_digit _) eqn:Hd; [|discriminate].
  remember (digits_value 0 [y1; y2; y3; y4]) as y eqn:Ey.
  remember (digits_value 0 [m1; m2]) as m eqn:Em.
  remember (digits_value 0 [d1; d2]) as dd eqn:Edd.
  cbv zeta in H. destruct (_ && _)%bool; [|discriminate].
  injection H as <-. cbn [year] in Hy.
  unfold make_report_name_for_log. cbn [date year month day].
  cbn [forallb] in Hd. repeat (apply andb_prop in Hd as [? Hd]).
  subst y m dd.
  rewrite str_of_year, !format_02_of_digits;
    first [ reflexivity
          | exact Hy
          | cbn [forallb];
            now rewrite ?H, ?H0, ?H1, ?H2, ?H3, ?H4, ?H5, ?H6 ].
Qed.

(** The name of the report of the latest log, for a year from 1000 on: it
    is written with the digits that the name of the log holds, four of
    year, two of month and two of day. *)
Theorem report_name_of_latest_log :
  forall (log_dir : string) (files : list string) (log : LogFile),
    find_latest_log log_dir files = Ok (Some log) ->
    (1000 <= year (date log))%Z ->
    exists file s,
      In file files /\ dated_name file s /\
      make_report_name_for_log log
      = ("report-" ++ substring 0 4 s ++ "." ++ substring 4 2 s ++ "."
         ++ substring 6 2 s ++ ".html")%string.
Proof.
  intros log_dir files log H Hy. unfold find_latest_log in H.
  pose proof (find_latest_from_none log_dir files None) as Hn.
  rewrite H in Hn. destruct Hn as (l1 & file & l2 & -> & _ & Hd & _).
  unfold log_date_of in Hd.
  destruct (findall file) as [|s ss] eqn:Ef; [discriminate|].
  exists file, s. split; [apply in_elt|]. split.
  - apply dated_name_iff.
    assert (Hin : In s (findall file)) by (rewrite Ef; now left).
    unfold findall in Hin.
    apply findall_from_sound in Hin as (a & b & Hf & Hat).
    rewrite app_nil_r in Hat. now exists a, b.
  - destruct log as [p d]. now apply report_name_of_date_string.
Qed.

Lemma report_name_of_latest_log_witness :
  exists log,
    find_latest_log "/logs" ["nginx-access-ui.log-20170630"] = Ok (Some log) /\
    exists file s,
      In file ["nginx-access-ui.log-20170630"] /\ dated_name file s /\
      make_report_name_for_log log
      = ("report-" ++ substring 0 4 s ++ "." ++ substring 4 2 s ++ "."
         ++ substring 6 2 s ++ ".html")%string.
Proof.
  eexists. split; [vm_compute; reflexivity|].
  apply (report_name_of_latest_log "/logs" ["nginx-access-ui.log-20170630"]).
  - vm_compute. reflexivity.
  - vm_compute. discriminate.
Defined.

Lemma to_int_not_nil z :
  Z.to_int z <> Decimal.Pos Decimal.Nil /\ Z.to_int z <> Decimal.Neg Decimal.Nil.
Proof.
  pose proof (DecimalZ.to_of (Z.to_int z)) as H.
  rewrite DecimalZ.of_to in H.
  split; intros E; rewrite E in H; discriminate H.
Qed.

Lemma str_inj a b : str a = str b -> a = b.
Proof.
  unfold str. intros H.
  destruct (to_int_not_nil a) as [Ha1 Ha2].
  destruct (to_int_not_nil b) as [Hb1 Hb2].
  pose proof (NilZero.isi (Z.to_int a) Ha1 Ha2) as Ia.
  pose proof (NilZero.isi (Z.to_int b) Hb1 Hb2) as Ib.
  rewrite H in Ia. rewrite Ia in Ib. injection Ib as Ib.
  now apply DecimalZ.to_int_inj.
Qed.

(** A string without a dot. *)
Lemma no_dot_split a : forall a' b b',
  forallb (fun c => negb (Ascii.eqb c ".")) (list_ascii_of_string a) = true ->
  forallb (fun c => negb (Ascii.eqb c ".")) (list_ascii_of_string a') = true ->
  (a ++ String "." b)%string = (a' ++ String "." b')%string ->
  a = a' /\ b = b'.
Proof.
  induction a as [|x a IH]; intros [|x' a'] b b' Ha Ha' H; simpl in *.
  - now injection H as <-.
  - injection H as <- _. now rewrite Ascii.eqb_refl in Ha'.
  - injection H as -> _. now rewrite Ascii.eqb_refl in Ha.
  - injection H as <- H.
    apply andb_prop in Ha as [_ Ha]. apply andb_prop in Ha' as [_ Ha'].
    destruct (IH a' b b' Ha Ha' H) as [-> ->]. now split.
Qed.

Lemma string_of_uint_no_dot u :
  forallb (fun c => negb (Ascii.eqb c "."))
          (list_ascii_of_string (NilEmpty.string_of_uint u)) = true.
Proof. induction u; simpl; auto. Qed.

Lemma str_no_dot z :
  forallb (fun c => negb (Ascii.eqb c ".")) (list_ascii_of_string (str z)) = true.
Proof.
  unfold str, NilZero.string_of_int, NilZero.string_of_uint.
  destruct (Z.to_int z) as [u|u]; destruct u; simpl;
    try reflexivity; apply string_of_uint_no_dot.
Qed.

Lemma format_02_no_dot z :
  forallb (fun c => negb (Ascii.eqb c "."))
          (list_ascii_of_string (format_02 z)) = true.
Proof.
  unfold format_02. destruct (String.length (str z) <? 2); [simpl|];
    apply str_no_dot.
Qed.

Lemma format_02_check :
  forallb (fun n =>
    match NilZero.int_of_string (format_02 (Z.of_nat n)) with
    | Some i => (Z.of_int i =? Z.of_nat n)%Z
    | None => false
    end) (seq 1 31) = true.
Proof. vm_compute. reflexivity. Qed.

Lemma format_02_inj m m' :
  (1 <= m <= 31)%Z -> (1 <= m' <= 31)%Z ->
  format_02 m = format_02 m' -> m = m'.
Proof.
  intros Hm Hm' H.
  assert (D : forall k, (1 <= k <= 31)%Z ->
              exists i, NilZero.int_of_string (format_02 k) = Some i /\
                        Z.of_int i = k).
  { intros k Hk. pose proof format_02_check as C.
    rewrite forallb_forall in C. specialize (C (Z.to_nat k)).
    rewrite Z2Nat.id in C by lia.
    destruct (NilZero.int_of_string (format_02 k)) as [i|].
    - exists i. split; [reflexivity|]. apply Z.eqb_eq, C, in_seq. lia.
    - assert (false = true); [|discriminate]. apply C, in_seq. lia. }
  destruct (D m Hm) as (i & Hi & <-). destruct (D m' Hm') as (i' & Hi' & <-).
  rewrite H in Hi. congruence.
Qed.

Lemma days_in_month_le y m : (days_in_month y m <= 31)%Z.
Proof.
  unfold days_in_month.
  destruct (m =? 2)%Z; [destruct (is_leap y); lia|].
  destruct (_ || _)%bool; lia.
Qed.

(** The name of the report tells the date of the log: two logs of the
    calendar have the same report name exactly when they have the same
    date, whatever their paths. *)
Theorem report_names_tell_the_date :
  forall log1 log2 : LogFile,
    valid_date (date log1) -> valid_date (date log2) ->
    (make_report_name_for_log log1 = make_report_name_for_log log2 <->
     date log1 = date log2).
Proof.
  intros [p1 [y1 m1 d1]] [p2 [y2 m2 d2]] (Hy1 & Hm1 & Hd1) (Hy2 & Hm2 & Hd2).
  unfold make_report_name_for_log. cbn [date year month day] in *.
  pose proof (days_in_month_le y1 m1) as L1.
  pose proof (days_in_month_le y2 m2) as L2.
  split; [|now intros [= -> -> ->]].
  intros E. injection E as H.
  apply no_dot_split in H as [Hy H]; try apply str_no_dot.
  apply no_dot_split in H as [Hm H]; try apply format_02_no_dot.
  change ".html"%string with (String "." "html") in H.
  apply no_dot_split in H as [Hd _]; try apply format_02_no_dot.
  apply str_inj in Hy. apply format_02_inj in Hm; [|lia|lia].
  apply format_02_inj in Hd; [|lia|lia]. now subst.
Qed.

Lemma report_names_tell_the_date_witness :
  make_report_name_for_log
    {| path := Some "/logs/nginx-access-ui.log-20170630";
       date := {| year := 2017; month := 6; day := 30 |} |}
  = make_report_name_for_log
      {| path := Some "/logs/nginx-access-ui.log-20170630.gz";
         date := {| year := 2017; month := 6; day := 30 |} |}.
Proof.
  apply (report_names_tell_the_date
           {| path := Some "/logs/nginx-access-ui.log-20170630";
              date := {| year := 2017; month := 6; day := 30 |} |}
           {| path := Some "/logs/nginx-access-ui.log-20170630.gz";
              date := {| year := 2017; month := 6; day := 30 |} |}).
  - vm_compute. intuition discriminate.
  - vm_compute. intuition discriminate.
  - reflexivity.
Defined.

(** The tests of the repository on the logs and the name of the report. *)
Example test_search_log :
  find_latest_log "/logs" test_listdir
  = Ok (Some {| path := Some "/logs/nginx-access-ui.log-20180630.gz";
                date := {| year := 2018; month := 6; day := 30 |} |}).
Proof. vm_compute. reflexivity. Qed.

Example test_search_log_along_other_files :
  find_latest_log "/logs" ["file"; "file2"; "file20170630"] = Ok None.
Proof. vm_compute. reflexivity. Qed.

Example test_report_name_making :
  make_report_name_for_log
    {| path := Some "nginx-access-ui.log-20170630";
       date := {| year := 2017; month := 6; day := 30 |} |}
  = "report-2017.06.30.html".
Proof. vm_compute. reflexivity. Qed.


(** ** The median, in general *)

(** [calc_median] on any list.  On the empty list it raises IndexError; on
    any other list it returns a number that does not depend on the order
    of the list and that lies between any two bounds of the list. *)
Theorem calc_median_order_and_bounds :
  forall l : list Q,
    (l = [] -> calc_median l = Raise IndexError) /\
    (l <> [] ->
     exists m,
       calc_median l = Ok m /\
       (forall l' m', Permutation l l' -> calc_median l' = Ok m' ->
                      (m == m')%Q) /\
       (forall lo hi, Forall (fun x => (lo <= x <= hi)%Q) l ->
                      (lo <= m <= hi)%Q)).
Proof.
  intros l. split; [intros ->; reflexivity|].
  intros Hne. exists (middle_of_sorted (sorted l)).
  assert (Hs : sorted l <> []).
  { intros E. apply Hne, Permutation_nil. rewrite <- E. apply sorted_perm. }
  split; [now apply calc_median_sorted|]. split.
  - intros l' m' Hp Hm'.
    assert (Hne' : l' <> []).
    { intros ->. apply Hne. now apply Permutation_nil, Permutation_sym. }
    rewrite (calc_median_sorted l' Hne') in Hm'. injection Hm' as <-.
    apply middle_of_sorted_agree; auto using sorted_sorted.
    now rewrite !sorted_perm.
  - intros lo hi Hall. apply middle_of_sorted_bounds; [exact Hs|].
    rewrite Forall_forall in *. intros x Hx. apply Hall.
    now apply (Permutation_in x (sorted_perm l)).
Qed.

Lemma calc_median_order_and_bounds_witness :
  exists m,
    calc_median [3; 1; 2]%Q = Ok m /\
    (forall l' m', Permutation [3; 1; 2]%Q l' -> calc_median l' = Ok m' ->
                   (m == m')%Q) /\
    (forall lo hi, Forall (fun x => (lo <= x <= hi)%Q) [3; 1; 2]%Q ->
                   (lo <= m <= hi)%Q).
Proof.
  apply (proj2 (calc_median_order_and_bounds [3; 1; 2]%Q)). discriminate.
Defined.
